(** * Marley-Claude memory bridge: the structural analyzer, the node aligner
      and the boundary code around them

    Shallow embedding of [src/memory-sync/marley_claude_bridge.py]:
    [SpectralScrollWalker.analyze_spectral_pattern],
    [SpectralScrollWalker.align_memory_nodes], the record loop of
    [MarleyClaudeBridge.sync_memory_bidirectional] and the [try]/[except]
    of [MarleyClaudeBridge.harmonize_markdown_content].

    Python values are modelled as the code has them: [str] as [string]
    (one [ascii] per character; the code only ever inspects the characters
    [#], [[], []], [(], [)] and the newline), [int] as [Z], [float] as
    IEEE-754 binary64 through the executable specification [SpecFloat] of
    the Standard Library, [dict] as [gmap], exceptions as the left summand
    of a result type. *)

From Stdlib Require Import ZArith List String Ascii Bool Lia Permutation Sorted.
From Stdlib Require Import SpecFloat.
From stdpp Require Import gmap strings.

Open Scope Z_scope.

(** ** Python floats: IEEE-754 binary64 *)

Module Float.

Definition prec : Z := 53.
Definition emax : Z := 1024.

Abbreviation float := spec_float.

(** [float(z)] without the range check: round to nearest, ties to even. *)
Definition of_Z (z : Z) : float := binary_normalize prec emax z 0 false.

Definition add : float -> float -> float := SFadd prec emax.
Definition mul : float -> float -> float := SFmul prec emax.
Definition div : float -> float -> float := SFdiv prec emax.
Definition ltb : float -> float -> bool := SFltb.
Definition leb : float -> float -> bool := SFleb.
Definition eqb : float -> float -> bool := SFeqb.

(** The literals [0.0] and [0.5]. *)
Definition zero : float := S754_zero false.
Definition half : float := S754_finite false 4503599627370496 (-53).

Definition is_nan (f : float) : bool :=
  match f with S754_nan => true | _ => false end.

Definition is_infinite (f : float) : bool :=
  match f with S754_infinity _ => true | _ => false end.

(** Zero, a positive finite number or plus infinity. *)
Definition nonneg (f : float) : bool :=
  match f with
  | S754_zero false | S754_finite false _ _ | S754_infinity false => true
  | _ => false
  end.

(** A positive finite number. *)
Definition pos_finite (f : float) : bool :=
  match f with S754_finite false _ _ => true | _ => false end.

End Float.

Import Float.

(** ** Python exceptions, results and numbers *)

(** An instance of (a subclass of) [Exception]: its class name and its
    message, which is what [str(e)] returns. *)
Record exn : Type := Exception { exn_type : string; exn_msg : string }.

Definition str_exn (e : exn) : string := exn_msg e.

Definition ZeroDivisionError (msg : string) : exn :=
  Exception "ZeroDivisionError" msg.
Definition OverflowError (msg : string) : exn :=
  Exception "OverflowError" msg.
Definition IndexError (msg : string) : exn :=
  Exception "IndexError" msg.

(** The outcome of running a piece of Python: a value, or a raised
    exception. *)
Inductive result (A : Type) : Type :=
| Ok (a : A)
| Raise (e : exn).
Arguments Ok {A} a.
Arguments Raise {A} e.

Definition bind {A B : Type} (c : result A) (k : A -> result B) : result B :=
  match c with
  | Ok a => k a
  | Raise e => Raise e
  end.

Notation "'do' x <- c ;; k" := (bind c (fun x => k))
  (at level 10, x name, c at level 99, k at level 200).

(** [try: body  except Exception as e: handler(e)]. *)
Definition try_except {A : Type} (body : result A) (handler : exn -> result A)
  : result A :=
  match body with
  | Ok a => Ok a
  | Raise e => handler e
  end.

(** [for x in xs: ys.append(f(x))], stopping at the first exception. *)
Fixpoint for_each {A B : Type} (f : A -> result B) (xs : list A)
  : result (list B) :=
  match xs with
  | [] => Ok []
  | x :: xs' => do y <- f x ;; do ys <- for_each f xs' ;; Ok (y :: ys)
  end.

(** A Python number: the analyzer returns an [int] in some fields and a
    [float] in others. *)
Inductive pynum : Type :=
| PyInt (z : Z)
| PyFloat (f : float).

(** The implicit conversion of an [int] operand in mixed arithmetic
    ([PyLong_AsDouble]): correctly rounded, [OverflowError] beyond the
    range of a double. *)
Definition float_of_int (z : Z) : result float :=
  let f := of_Z z in
  if is_infinite f
  then Raise (OverflowError "int too large to convert to float")
  else Ok f.

(** [x / y] on floats. *)
Definition float_truediv (x y : float) : result float :=
  if eqb y zero
  then Raise (ZeroDivisionError "float division by zero")
  else Ok (div x y).

(** An [int] read as an exact dyadic number (no rounding). *)
Definition exact_of_int (z : Z) : float :=
  match z with
  | Z0 => zero
  | Zpos p => S754_finite false p 0
  | Zneg p => S754_finite true p 0
  end.

(** [a / b] on ints: the correctly rounded quotient. *)
Definition int_truediv (a b : Z) : result float :=
  if b =? 0
  then Raise (ZeroDivisionError "division by zero")
  else
    let q := div (exact_of_int a) (exact_of_int b) in
    if is_infinite q
    then Raise (OverflowError "integer division result too large for a float")
    else Ok q.

(** ** Python strings *)

Open Scope string_scope.

Definition newline : ascii := "010"%char.

(** [s.split(sep)] for a one-character separator: never the empty list. *)
Fixpoint split (sep : ascii) (s : string) : list string :=
  match s with
  | EmptyString => [EmptyString]
  | String c s' =>
      if Ascii.eqb c sep then EmptyString :: split sep s'
      else match split sep s' with
           | l :: ls => String c l :: ls
           | [] => [String c EmptyString]
           end
  end.

(** [s.startswith(p)]. *)
Definition startswith (s p : string) : bool := String.prefix p s.

(** [sub in s]. *)
Fixpoint contains (sub s : string) : bool :=
  String.prefix sub s
  || match s with
     | EmptyString => false
     | String _ s' => contains sub s'
     end.

Definition len {A : Type} (l : list A) : Z := Z.of_nat (length l).

(** ** The regular expressions of the analyzer

    The two patterns handed to [re.findall] are written in a small
    fragment of the [re] syntax: escaped literal characters and the
    greedy negated class [[^c]+], once inside a capturing group. *)

Inductive re_item : Type :=
| Lit (c : ascii)            (* an escaped literal, such as [\[] *)
| NotPlus (c : ascii)        (* [[^c]+], greedy *)
| GroupNotPlus (c : ascii).  (* [([^c]+)], greedy, the capturing group *)

Definition regex : Type := list re_item.

(** [r'\[\[([^\]]+)\]\]'] *)
Definition wikilink_re : regex :=
  [Lit "["; Lit "["; GroupNotPlus "]"; Lit "]"; Lit "]"].

(** [r'\[([^\]]+)\]\([^\)]+\)'] *)
Definition link_re : regex :=
  [Lit "["; GroupNotPlus "]"; Lit "]"; Lit "("; NotPlus ")"; Lit ")"].

(** The greedy [[^c]+] followed by the rest [k] of the pattern, as a
    backtracking matcher runs it: the longest run of characters other
    than [c] after which [k] succeeds, shorter runs being tried only when
    the longer ones fail. Returns the run and the result of [k]. *)
Fixpoint match_run {R : Type} (c : ascii) (k : string -> option R)
    (s : string) : option (string * R) :=
  match s with
  | EmptyString => None
  | String a s' =>
      if Ascii.eqb a c then None
      else match match_run c k s' with
           | Some (run, r) => Some (String a run, r)
           | None =>
               match k s' with
               | Some r => Some (String a EmptyString, r)
               | None => None
               end
           end
  end.

(** A match of the pattern anchored at the first character of [s]: the
    text of the capturing group and the number of characters matched. *)
Fixpoint match_here (re : regex) (s : string) : option (string * nat) :=
  match re with
  | [] => Some (EmptyString, 0%nat)
  | Lit c :: re' =>
      match s with
      | EmptyString => None
      | String a s' =>
          if Ascii.eqb a c
          then match match_here re' s' with
               | Some (g, n) => Some (g, S n)
               | None => None
               end
          else None
      end
  | NotPlus c :: re' =>
      match match_run c (match_here re') s with
      | Some (run, (g, n)) => Some (g, (String.length run + n)%nat)
      | None => None
      end
  | GroupNotPlus c :: re' =>
      match match_run c (match_here re') s with
      | Some (run, (_, n)) => Some (run, (String.length run + n)%nat)
      | None => None
      end
  end.

(** [re.findall] for a pattern with one group: scan from the left, try a
    match at each position, and resume after the end of each match.
    [skip] counts the characters of the last match still to be passed. *)
Fixpoint findall_from (re : regex) (skip : nat) (s : string) {struct s}
  : list string :=
  match skip with
  | S k =>
      match s with
      | EmptyString => []
      | String _ s' => findall_from re k s'
      end
  | O =>
      match match_here re s with
      | Some (g, n) =>
          g :: match s with
               | EmptyString => []
               | String _ s' => findall_from re (Nat.pred n) s'
               end
      | None =>
          match s with
          | EmptyString => []
          | String _ s' => findall_from re 0 s'
          end
      end
  end.

Definition findall (re : regex) (s : string) : list string :=
  findall_from re 0 s.

(** ** Iteration order of a set of strings

    [list(set(xs))] lists every element of [xs] once, in an order fixed by
    the string hashes of the running interpreter. The order is left
    abstract: any duplicate-free enumeration of the elements. *)
Class HashOrder : Type := {
  list_of_set : list string -> list string;
  list_of_set_NoDup : forall xs, List.NoDup (list_of_set xs);
  list_of_set_In : forall xs x, In x (list_of_set xs) <-> In x xs
}.

(** One such order, so that the interface is inhabited: the order of
    the last occurrences in [xs]. *)
Definition last_seen_order : HashOrder :=
  {| list_of_set := nodup string_dec;
     list_of_set_NoDup := NoDup_nodup string_dec;
     list_of_set_In := fun xs x => nodup_In string_dec xs x |}.

(** ** The structural analyzer *)

(** The dictionary returned by [analyze_spectral_pattern]. *)
Record spectral_data : Type := {
  spectral_frequency : float;
  resonance_threads : list string;
  structural_depth : Z;
  connection_density : pynum
}.

Section Analyzer.

Context {hash_order : HashOrder}.

Definition is_heading (l : string) : bool := startswith l "#".
Definition has_link (l : string) : bool :=
  contains "[[" l || contains "](" l.
Definition is_tag (l : string) : bool :=
  contains "#" l && negb (startswith l "#").

Definition heading_count (lines : list string) : Z :=
  len (List.filter is_heading lines).
Definition link_count (lines : list string) : Z :=
  len (List.filter has_link lines).
Definition tag_count (lines : list string) : Z :=
  len (List.filter is_tag lines).

(** The body of the [for line in lines] loop. *)
Definition line_threads (line : string) : list string :=
  findall wikilink_re line ++ findall link_re line.

Definition analyze_spectral_pattern (content : string)
  : result spectral_data :=
  let lines := split newline content in
  let heading_count := heading_count lines in
  let link_count := link_count lines in
  let tag_count := tag_count lines in
  do tags <- float_of_int tag_count ;;
  do marks <- float_of_int (heading_count * 2 + link_count) ;;
  do n <- float_of_int (len lines) ;;
  do spectral_frequency <- float_truediv (add marks (mul tags half)) n ;;
  let resonance_threads := flat_map line_threads lines in
  do connection_density <-
     match lines with
     | _ :: _ =>
         do d <- int_truediv link_count (len lines) ;; Ok (PyFloat d)
     | [] => Ok (PyInt 0)
     end ;;
  Ok {| spectral_frequency := spectral_frequency;
        resonance_threads := list_of_set resonance_threads;
        structural_depth := heading_count;
        connection_density := connection_density |}.

End Analyzer.

(** The example of the specification. *)
Definition example_content : string :=
  "# Title" +:+ String newline "See [[Concept]] and [label](url)"
            +:+ String newline "#tag here".

(** ** Memory nodes *)

(** A [datetime], as a number of microseconds since the epoch. *)
Definition datetime : Type := Z.

Module MemoryNode.

Record t : Type := mk {
  id : string;
  content : string;
  markdown_format : string;
  spectral_frequency : float;
  resonance_threads : list string;
  timestamp : datetime;
  source : string;  (* 'marley' | 'claude' | 'hybrid' *)
  harmonization_status : string
}.

End MemoryNode.

(** ** [sorted(xs, key=..., reverse=True)]

    The sort is stable and compares keys with [<] only; with
    [reverse=True] the elements are sorted as if each comparison were
    reversed, equal keys keeping the order of the input. Modelled as the
    stable insertion sort with the reversed comparison: an element is
    moved behind exactly those elements whose key is strictly greater.
    On keys that are not NaN this is the only stable rearrangement in
    non-increasing order ([sorted_reverse_unique] below), so the choice
    of the algorithm does not show. *)

Section Sorted_reverse.

Context {A : Type} (key : A -> float).

Fixpoint insert_reverse (x : A) (l : list A) : list A :=
  match l with
  | [] => [x]
  | y :: l' =>
      if ltb (key x) (key y) then y :: insert_reverse x l' else x :: y :: l'
  end.

Definition sorted_reverse (l : list A) : list A :=
  fold_right insert_reverse [] l.

(** [a] may stand before [b]: the key of [a] is at least the key of [b]. *)
Definition key_ge (a b : A) : Prop := leb (key b) (key a) = true.

End Sorted_reverse.

(** ** The node aligner *)

Section Aligner.

Context {hash_order : HashOrder}.

(** The body of the [for node in nodes] loop. *)
Definition aligned_node (node : MemoryNode.t) : result MemoryNode.t :=
  do spectral_data <- analyze_spectral_pattern (MemoryNode.content node) ;;
  Ok (MemoryNode.mk
        (MemoryNode.id node)
        (MemoryNode.content node)
        (MemoryNode.markdown_format node)
        (spectral_frequency spectral_data)
        (resonance_threads spectral_data)
        (MemoryNode.timestamp node)
        (MemoryNode.source node)
        "aligned").

Definition align_memory_nodes (nodes : list MemoryNode.t)
  : result (list MemoryNode.t) :=
  do aligned_nodes <- for_each aligned_node nodes ;;
  Ok (sorted_reverse MemoryNode.spectral_frequency aligned_nodes).

End Aligner.

(** *** What the specification says of an aligned node *)

(** The fields that alignment copies are those of the input node. *)
Definition same_copied_fields (n n' : MemoryNode.t) : Prop :=
  MemoryNode.id n' = MemoryNode.id n
  /\ MemoryNode.content n' = MemoryNode.content n
  /\ MemoryNode.markdown_format n' = MemoryNode.markdown_format n
  /\ MemoryNode.timestamp n' = MemoryNode.timestamp n
  /\ MemoryNode.source n' = MemoryNode.source n.

(** The two derived fields are those of the analysis of the content. *)
Definition analysis_fields {hash_order : HashOrder} (n n' : MemoryNode.t)
  : Prop :=
  exists a,
    analyze_spectral_pattern (MemoryNode.content n) = Ok a
    /\ MemoryNode.spectral_frequency n' = spectral_frequency a
    /\ MemoryNode.resonance_threads n' = resonance_threads a.

(** The node has the frequency [k] ([==] on floats). *)
Definition has_frequency (k : float) (n : MemoryNode.t) : bool :=
  eqb (MemoryNode.spectral_frequency n) k.

(** Two nodes to run the aligner on. *)
Definition plain_node : MemoryNode.t :=
  MemoryNode.mk "rec1" "plain text" "unknown" zero [] 0%Z "marley" "pending".

Definition example_node : MemoryNode.t :=
  MemoryNode.mk "rec2" example_content "obsidian" zero [] 1%Z "marley"
                "pending".

(** ** The record loop of [sync_memory_bidirectional] *)

(** A record as the tabular store returns it: its id and its dictionary
    of fields. *)
Record airtable_record : Type := {
  record_id : string;
  record_fields : gmap string string
}.

Section Sync.

(** [datetime.now(timezone.utc)] at the [k]-th reading of the clock. *)
Context (clock : nat -> datetime).

(** The node built from a record that has a ['Content'] field. *)
Definition marley_node (record : airtable_record) (content : string)
    (now : datetime) : MemoryNode.t :=
  MemoryNode.mk
    (record_id record)
    content
    (default "unknown" (record_fields record !! "Format"))
    zero
    []
    now
    "marley"
    "pending".

(** [for record in marley_records: ...], the clock being read once for
    each node that is built; [tick] counts the readings so far. *)
Fixpoint marley_nodes_from (tick : nat) (marley_records : list airtable_record)
  : list MemoryNode.t :=
  match marley_records with
  | [] => []
  | record :: rest =>
      let fields := record_fields record in
      match fields !! "Content" with
      | Some content =>
          marley_node record content (clock tick)
            :: marley_nodes_from (S tick) rest
      | None => marley_nodes_from tick rest
      end
  end.

Definition marley_nodes (marley_records : list airtable_record)
  : list MemoryNode.t :=
  marley_nodes_from 0 marley_records.

End Sync.

(** ['Content' in fields]. *)
Definition has_content (record : airtable_record) : bool :=
  match record_fields record !! "Content" with
  | Some _ => true
  | None => false
  end.

(** The node [n] is the one built from the record [r]. *)
Definition built_from (r : airtable_record) (n : MemoryNode.t) : Prop :=
  MemoryNode.id n = record_id r
  /\ record_fields r !! "Content" = Some (MemoryNode.content n)
  /\ MemoryNode.harmonization_status n = "pending"
  /\ MemoryNode.source n = "marley".

(** ** [harmonize_markdown_content] *)

(** The reply of the text-generation service: a list of content blocks. *)
Record content_block : Type := { text : string }.
Record message : Type := { message_content : list content_block }.

(** The dictionary returned to the caller: the harmonized content with
    its analysis, or the error with the untouched input. *)
Inductive harmonization : Type :=
| Harmonized (original_content harmonized_content target_format : string)
             (spectral_analysis : spectral_data)
             (harmonization_timestamp : string)
| Failed (error : string) (fallback_content : string).

(** The prompt, an f-string over [target_format] and [content] (the
    pictograph that opens its first line is left out). *)
Definition harmonization_prompt (content target_format : string) : string :=
  "
        EchoDaemon Harmonization Request
        
        Please harmonize this markdown content for " +:+ target_format +:+ " compatibility:
        
        ---
        " +:+ content +:+ "
        ---
        
        Requirements:
        - Preserve semantic meaning
        - Convert to " +:+ target_format +:+ "-style syntax
        - Maintain spectral resonance (structural coherence)
        - Enable cross-platform compatibility
        
        Return the harmonized content with brief notes on changes made.
        ".

(** [xs[0]]. *)
Definition first_item {A : Type} (xs : list A) : result A :=
  match xs with
  | x :: _ => Ok x
  | [] => Raise (IndexError "list index out of range")
  end.

Section Harmonize.

Context {hash_order : HashOrder}.

(** The text-generation collaborator: what [await
    self.claude.messages.create(...)] comes back with for a prompt, a
    message or a raised exception. *)
Context (claude : string -> result message).

(** [datetime.now().isoformat()]. *)
Context (now_isoformat : string).

Definition harmonize_markdown_content (content target_format : string)
  : result harmonization :=
  let prompt := harmonization_prompt content target_format in
  try_except
    (do message <- claude prompt ;;
     do block <- first_item (message_content message) ;;
     let harmonized_content := text block in
     do spectral_analysis <- analyze_spectral_pattern harmonized_content ;;
     Ok (Harmonized content harmonized_content target_format
                    spectral_analysis now_isoformat))
    (fun e => Ok (Failed (str_exn e) content)).

End Harmonize.

(** A collaborator that fails on every request. *)
Definition failing_claude (prompt : string) : result message :=
  Raise (Exception "APIConnectionError" "Connection error.").

(** ** Python's bound on the length of a string

    A [str] holds at most [PY_SSIZE_T_MAX = 2^63 - 1] characters. *)
Definition py_str (s : string) : Prop :=
  (Z.of_nat (String.length s) <= 2 ^ 63 - 1)%Z.

(** ** The quantities of the specification

    The definitions below follow the words of the specification, to be
    compared with the analyzer. *)

(** [(H*2 + L + T*0.5) / N], in Python's arithmetic. *)
Definition spectral_score (H L T N : Z) : float :=
  div (add (of_Z (H * 2 + L)) (mul (of_Z T) half)) (of_Z N).

(** The number of newline-separated lines: one more than the number of
    newline characters. *)
Fixpoint newlines (s : string) : nat :=
  match s with
  | EmptyString => 0%nat
  | String c s' => ((if Ascii.eqb c newline then 1 else 0) + newlines s')%nat
  end.

Definition spec_line_count (content : string) : Z :=
  Z.of_nat (S (newlines content)).

(** The character [c] stands at position [i] of [l]. *)
Definition char_at (c : ascii) (i : nat) (l : string) : Prop :=
  String.get i l = Some c.

(** [sub] occurs somewhere in [s]. *)
Definition occurs (sub s : string) : Prop :=
  exists pre post, s = pre +:+ sub +:+ post.

(** A line whose first character is [#]. *)
Definition spec_heading (l : string) : bool :=
  match l with
  | String c _ => Ascii.eqb c "#"
  | EmptyString => false
  end.

(** A line that contains a [#] at some position other than 0. *)
Definition spec_tag (l : string) : bool :=
  match l with
  | String _ rest => contains "#" rest
  | EmptyString => false
  end.

(** The number of lines of [content] that satisfy [p]. *)
Definition count_lines (p : string -> bool) (content : string) : Z :=
  len (List.filter p (split newline content)).

(** [s] holds no character [c]. *)
Fixpoint free_of (c : ascii) (s : string) : bool :=
  match s with
  | EmptyString => true
  | String a s' => negb (Ascii.eqb a c) && free_of c s'
  end.

(** The texts a pattern denotes, with the text of its group: a literal
    denotes itself, [[^c]+] any non-empty text free of [c]. *)
Inductive matches : regex -> string -> string -> Prop :=
| matches_nil : matches [] EmptyString EmptyString
| matches_Lit c re m g :
    matches re m g -> matches (Lit c :: re) (String c m) g
| matches_NotPlus c re run m g :
    run <> EmptyString -> free_of c run = true ->
    matches re m g -> matches (NotPlus c :: re) (run +:+ m) g
| matches_GroupNotPlus c re run m g :
    run <> EmptyString -> free_of c run = true ->
    matches re m g -> matches (GroupNotPlus c :: re) (run +:+ m) run.

(** The labels literally present in [content]: the text between
    wiki-link brackets, and the label part of an inline link. *)
Definition wiki_label (content t : string) : Prop :=
  occurs ("[[" +:+ t +:+ "]]") content.

Definition link_label (content t : string) : Prop :=
  exists url, occurs ("[" +:+ t +:+ "](" +:+ url +:+ ")") content.

Close Scope string_scope.

(** * The rest of the bridge *)

Open Scope string_scope.

(** ** More Python primitives *)

(** [sep.join(xs)]. *)
Fixpoint join (sep : string) (xs : list string) : string :=
  match xs with
  | [] => EmptyString
  | x :: xs' =>
      match xs' with
      | [] => x
      | _ :: _ => x +:+ sep +:+ join sep xs'
      end
  end.

(** [x in xs] on a list of strings. *)
Definition in_list (x : string) (xs : list string) : bool :=
  existsb (String.eqb x) xs.

Definition KeyError (key : string) : exn := Exception "KeyError" key.

(** *** Dictionaries with string keys

    A [dict] keeps its items in the order in which the keys were first
    inserted; assigning to a key that is present replaces the value in
    place. Modelled as the list of items, the keys being distinct. *)

Section PyDict.

Context {V : Type}.

Definition pydict : Type := list (string * V).

(** [d.get(k)]. *)
Fixpoint dict_get (k : string) (d : pydict) : option V :=
  match d with
  | [] => None
  | (k', v) :: d' => if String.eqb k' k then Some v else dict_get k d'
  end.

(** [d[k] = v]. *)
Fixpoint dict_set (k : string) (v : V) (d : pydict) : pydict :=
  match d with
  | [] => [(k, v)]
  | (k', v') :: d' =>
      if String.eqb k' k then (k', v) :: d' else (k', v') :: dict_set k v d'
  end.

(** [list(d.keys())]. *)
Definition dict_keys (d : pydict) : list string := List.map fst d.

(** The invariant of a dictionary: no key twice. *)
Definition dict_wf (d : pydict) : Prop := List.NoDup (dict_keys d).

End PyDict.

Arguments pydict V : clear implicits.

(** The two nodes of the examples, aligned. *)
Definition two_nodes_aligned : list MemoryNode.t :=
  Eval vm_compute in
    match @align_memory_nodes last_seen_order [plain_node; example_node] with
    | Ok out => out
    | Raise _ => []
    end.

(** [plain_node] as it could come back from an earlier run. *)
Definition plain_node_stale : MemoryNode.t :=
  MemoryNode.mk "rec1" "plain text" "unknown" half ["old"] 0%Z "marley"
                "aligned".

(** ** [sync_memory_bidirectional], whole *)

(** The dictionary written back to the store for one node. *)
Record sync_fields : Type := {
  SpectralFrequency : float;
  ResonanceThreads : string;
  HarmonizationStatus : string;
  LastSync : string
}.

(** The dictionary returned by a synchronization run. *)
Record sync_summary : Type := {
  synchronized_nodes : Z;
  total_spectral_frequency : pynum;
  unique_resonance_threads : Z;
  summary_timestamp : string
}.

(** The tabular store, as the run meets it: what [get_all()] comes back
    with, and what [update(id, fields)] comes back with for each call. *)
Record airtable_client : Type := {
  get_all : result (list airtable_record);
  update : string -> sync_fields -> result unit
}.

(** What a run leaves behind: the cache, the [update] calls made on the
    store, in order, and the summary returned or the exception raised. *)
Record sync_outcome : Type := {
  cache_after : pydict MemoryNode.t;
  update_calls : list (string * sync_fields);
  returned : result sync_summary
}.

Section Sync_whole.

Context {hash_order : HashOrder}.
Context (airtable : airtable_client).

(** [datetime.now(timezone.utc)] at the [k]-th node built, and
    [datetime.now().isoformat()] at the [k]-th reading after that. *)
Context (clock : nat -> datetime) (now_isoformat : nat -> string).

(** The builtin [sum] on the frequencies, a parameter of the model. *)
Context (py_sum : list float -> pynum).

(** [for node in aligned_nodes: self.memory_cache[node.id] = node]. *)
Definition update_cache (aligned_nodes : list MemoryNode.t)
    (memory_cache : pydict MemoryNode.t) : pydict MemoryNode.t :=
  fold_left (fun cache node => dict_set (MemoryNode.id node) node cache)
            aligned_nodes memory_cache.

Definition fields_of (node : MemoryNode.t) (last_sync : string)
  : sync_fields :=
  {| SpectralFrequency := MemoryNode.spectral_frequency node;
     ResonanceThreads := join ", " (MemoryNode.resonance_threads node);
     HarmonizationStatus := MemoryNode.harmonization_status node;
     LastSync := last_sync |}.

(** [for node in aligned_nodes: self.airtable.update(node.id, {...})]:
    the calls made, up to and including the first one that raises. *)
Fixpoint write_back (k : nat) (aligned_nodes : list MemoryNode.t)
  : list (string * sync_fields) * result unit :=
  match aligned_nodes with
  | [] => ([], Ok tt)
  | node :: rest =>
      let fields := fields_of node (now_isoformat k) in
      let call := (MemoryNode.id node, fields) in
      match update airtable (MemoryNode.id node) fields with
      | Raise e => ([call], Raise e)
      | Ok _ =>
          let (calls, r) := write_back (S k) rest in (call :: calls, r)
      end
  end.

(** The calls of a write-back in which no call raises. *)
Fixpoint write_back_calls (k : nat) (aligned_nodes : list MemoryNode.t)
  : list (string * sync_fields) :=
  match aligned_nodes with
  | [] => []
  | node :: rest =>
      (MemoryNode.id node, fields_of node (now_isoformat k))
        :: write_back_calls (S k) rest
  end.

Definition summary_of (aligned_nodes : list MemoryNode.t) : sync_summary :=
  {| synchronized_nodes := len aligned_nodes;
     total_spectral_frequency :=
       py_sum (List.map MemoryNode.spectral_frequency aligned_nodes);
     unique_resonance_threads :=
       len (nodup string_dec
              (flat_map MemoryNode.resonance_threads aligned_nodes));
     summary_timestamp := now_isoformat (length aligned_nodes) |}.

Definition sync_memory_bidirectional (memory_cache : pydict MemoryNode.t)
  : sync_outcome :=
  match get_all airtable with
  | Raise e =>
      {| cache_after := memory_cache; update_calls := []; returned := Raise e |}
  | Ok marley_records =>
      let marley_nodes := marley_nodes clock marley_records in
      match align_memory_nodes marley_nodes with
      | Raise e =>
          {| cache_after := memory_cache; update_calls := [];
             returned := Raise e |}
      | Ok aligned_nodes =>
          let (calls, written) := write_back 0 aligned_nodes in
          {| cache_after := update_cache aligned_nodes memory_cache;
             update_calls := calls;
             returned := do _ <- written ;; Ok (summary_of aligned_nodes) |}
      end
  end.

End Sync_whole.

(** Every record with a ['Content'] field holds a Python string there. *)
Definition py_records (records : list airtable_record) : Prop :=
  Forall (fun r => forall c, record_fields r !! "Content" = Some c -> py_str c)
         records.

(** The last node of [nodes] whose id is [k]. *)
Definition last_with_id (k : string) (nodes : list MemoryNode.t)
  : option MemoryNode.t :=
  List.find (fun n => String.eqb (MemoryNode.id n) k) (rev nodes).

(** Every node of the cache is stored under its own id. *)
Definition keyed_by_id (memory_cache : pydict MemoryNode.t) : Prop :=
  forall k n, dict_get k memory_cache = Some n -> MemoryNode.id n = k.

(** A store with three records, one of them without content, that
    accepts every update; and one that refuses them all. *)
Definition three_records : list airtable_record :=
  [ {| record_id := "rec1";
       record_fields := {[ "Content" := "plain text" ]} |};
    {| record_id := "rec2";
       record_fields := {[ "Title" := "no content here" ]} |};
    {| record_id := "rec3";
       record_fields := {[ "Content" := "# Heading [[Link]]";
                           "Format" := "obsidian" ]} |} ].

Definition accepting_store : airtable_client :=
  {| get_all := Ok three_records; update := fun _ _ => Ok tt |}.

Definition refusing_store : airtable_client :=
  {| get_all := Ok three_records;
     update := fun _ _ => Raise (Exception "HTTPError" "422") |}.

Definition example_clock (k : nat) : datetime := Z.of_nat k.
Definition example_isoformat (k : nat) : string := "2024-01-01T00:00:00".
Definition example_sum (xs : list float) : pynum :=
  match xs with
  | [] => PyInt 0
  | x :: xs' => PyFloat (fold_left add xs' x)
  end.

(** A cache left by an earlier run. *)
Definition old_cache : pydict MemoryNode.t :=
  [("rec0", MemoryNode.mk "rec0" "gone" "unknown" zero [] 0%Z "marley" "aligned");
   ("rec1", plain_node_stale)].

(** ** [get_memory_resonance_map] *)

(** The dictionary stored for one node. *)
Record resonance_entry : Type := {
  entry_spectral_frequency : float;
  entry_resonance_threads : list string;
  connected_nodes : list string
}.

(** [any(thread in other_node.resonance_threads
         for thread in node.resonance_threads)]. *)
Definition shares_thread (node other_node : MemoryNode.t) : bool :=
  existsb (fun thread => in_list thread (MemoryNode.resonance_threads other_node))
          (MemoryNode.resonance_threads node).

(** The list comprehension over [self.memory_cache.items()]. *)
Definition connected_to (memory_cache : pydict MemoryNode.t)
    (node_id : string) (node : MemoryNode.t) : list string :=
  List.map fst
    (List.filter
       (fun item => shares_thread node (snd item)
                    && negb (String.eqb (fst item) node_id))
       memory_cache).

(** The value stored for [node_id]. *)
Definition entry_of (memory_cache : pydict MemoryNode.t)
    (node_id : string) (node : MemoryNode.t) : resonance_entry :=
  {| entry_spectral_frequency := MemoryNode.spectral_frequency node;
     entry_resonance_threads := MemoryNode.resonance_threads node;
     connected_nodes := connected_to memory_cache node_id node |}.

Definition get_memory_resonance_map (memory_cache : pydict MemoryNode.t)
  : pydict resonance_entry :=
  fold_left
    (fun resonance_map item =>
       dict_set (fst item) (entry_of memory_cache (fst item) (snd item))
                resonance_map)
    memory_cache [].

(** A cache of three nodes, two of which share a thread. *)
Definition linked_cache : pydict MemoryNode.t :=
  [("a", MemoryNode.mk "a" "[[x]] [[y]]" "unknown" zero ["x"; "y"] 0%Z
                       "marley" "aligned");
   ("b", MemoryNode.mk "b" "no link" "unknown" zero [] 0%Z "marley" "aligned");
   ("c", MemoryNode.mk "c" "[[y]]" "unknown" zero ["y"] 0%Z "marley"
                       "aligned")].

(** ** The message endpoint *)

(** The envelope sent back for a message. *)
Inductive ws_reply (SyncData HarmonizationData : Type) : Type :=
| sync_result (data : SyncData)
| harmonization_result (data : HarmonizationData).
Arguments sync_result {SyncData HarmonizationData} data.
Arguments harmonization_result {SyncData HarmonizationData} data.

Section WebSocket.

(** The handler only calls the two operations of the bridge; it is
    modelled over them: [sync] runs on the state of the bridge, and
    [harmonize] takes the content and the target format. *)
Context {State SyncData HarmonizationData : Type}.
Context (sync : State -> State * result SyncData).
Context (harmonize : string -> string -> result HarmonizationData).

(** [json.loads]: a message is a JSON object whose members are strings;
    the parser is a parameter of the model. *)
Context (json_loads : string -> result (gmap string string)).

(** [message[key]]. *)
Definition message_item (message : gmap string string) (key : string)
  : result string :=
  match message !! key with
  | Some v => Ok v
  | None => Raise (KeyError key)
  end.

(** One turn of the [while True] loop on a received text: the new state
    and the reply sent, if any, or the exception that ends the loop. *)
Definition handle_text (data : string) (st : State)
  : State * result (option (ws_reply SyncData HarmonizationData)) :=
  match json_loads data with
  | Raise e => (st, Raise e)
  | Ok message =>
      match message_item message "type" with
      | Raise e => (st, Raise e)
      | Ok type =>
          if String.eqb type "sync_memory" then
            let (st', r) := sync st in
            (st', do result <- r ;; Ok (Some (sync_result result)))
          else if String.eqb type "harmonize_content" then
            (st,
             do content <- message_item message "content" ;;
             do result <- harmonize content
                            (default "obsidian" (message !! "target_format")) ;;
             Ok (Some (harmonization_result result)))
          else (st, Ok None)
      end
  end.

(** The session on the texts received until the peer disconnects: the
    loop runs until a turn raises (the exception is logged and the
    connection closed) or the texts are exhausted, at which
    [receive_text] raises. Sending a reply to a connected peer is taken
    to succeed. Returns the final state and the replies sent. *)
Fixpoint websocket_memory_sync (received : list string) (st : State)
  : State * list (ws_reply SyncData HarmonizationData) :=
  match received with
  | [] => (st, [])
  | data :: rest =>
      match handle_text data st with
      | (st', Raise _) => (st', [])
      | (st', Ok None) => websocket_memory_sync rest st'
      | (st', Ok (Some reply)) =>
          let (st'', replies) := websocket_memory_sync rest st' in
          (st'', reply :: replies)
      end
  end.

End WebSocket.

(** A content with an inline link on its second line. *)
Definition link_content : string :=
  "intro" +:+ String newline "see [label](url) here".

(** The records of [three_records], aligned. *)
Definition three_aligned : list MemoryNode.t :=
  Eval vm_compute in
    match @align_memory_nodes last_seen_order
            (marley_nodes example_clock three_records) with
    | Ok out => out
    | Raise _ => []
    end.

(** *** The handler on the operations of the bridge *)

(** [self.sync_memory_bidirectional()] on the cache as state. *)
Definition bridge_sync {hash_order : HashOrder} (airtable : airtable_client)
    (clock : nat -> datetime) (now_isoformat : nat -> string)
    (py_sum : list float -> pynum) (memory_cache : pydict MemoryNode.t)
  : pydict MemoryNode.t * result sync_summary :=
  let outcome :=
    sync_memory_bidirectional airtable clock now_isoformat py_sum memory_cache
  in (cache_after outcome, returned outcome).

(** A text between double quotes. *)
Definition quoted (s : string) : string :=
  String "034" (s +:+ String "034" EmptyString).

(** The texts of four messages, and a parser that knows them. *)
Definition sync_text : string :=
  "{" +:+ quoted "type" +:+ ": " +:+ quoted "sync_memory" +:+ "}".
Definition ping_text : string :=
  "{" +:+ quoted "type" +:+ ": " +:+ quoted "ping" +:+ "}".
Definition untyped_text : string :=
  "{" +:+ quoted "content" +:+ ": " +:+ quoted "# Title" +:+ "}".
Definition harmonize_text : string :=
  "{" +:+ quoted "type" +:+ ": " +:+ quoted "harmonize_content" +:+ ", "
      +:+ quoted "content" +:+ ": " +:+ quoted "# Title" +:+ "}".
Definition harmonize_obsidian_text : string :=
  "{" +:+ quoted "type" +:+ ": " +:+ quoted "harmonize_content" +:+ ", "
      +:+ quoted "content" +:+ ": " +:+ quoted "# Title" +:+ ", "
      +:+ quoted "target_format" +:+ ": " +:+ quoted "obsidian" +:+ "}".

Definition harmonize_message : gmap string string :=
  {[ "type" := "harmonize_content"; "content" := "# Title" ]}.

Definition example_json_loads (data : string) : result (gmap string string) :=
  if String.eqb data sync_text then Ok {[ "type" := "sync_memory" ]}
  else if String.eqb data ping_text then Ok {[ "type" := "ping" ]}
  else if String.eqb data untyped_text then Ok {[ "content" := "# Title" ]}
  else if String.eqb data harmonize_text then Ok harmonize_message
  else if String.eqb data harmonize_obsidian_text
       then Ok (<[ "target_format" := "obsidian" ]> harmonize_message)
  else Raise (Exception "JSONDecodeError" "Expecting value").

(** A collaborator that answers with one block of text. *)
Definition echo_claude (prompt : string) : result message :=
  Ok {| message_content := [ {| text := "# Title [[Note]]" |} ] |}.

(** A collaborator that answers with no block at all. *)
Definition mute_claude (prompt : string) : result message :=
  Ok {| message_content := [] |}.

Close Scope string_scope.

(** * Facts about binary64 arithmetic *)

Open Scope Z_scope.

(** *** Facts about the rounding primitives *)

Section Rounding_facts.

Lemma digits2_pos_size (p : positive) : digits2_pos p = Pos.size p.
Proof. induction p; simpl; congruence. Qed.

Lemma Zdigits2_log2 (p : positive) :
  Zpos (digits2_pos p) = Z.log2 (Zpos p) + 1.
Proof.
  destruct p; simpl; rewrite ?digits2_pos_size, ?Pos2Z.inj_succ; lia.
Qed.

Lemma digits2_pos_iter_xO (m k : positive) :
  digits2_pos (Pos.iter xO m k) = (digits2_pos m + k)%positive.
Proof.
  induction k using Pos.peano_ind.
  - simpl. lia.
  - rewrite Pos.iter_succ. simpl. rewrite IHk. lia.
Qed.

Lemma shr_record_of_loc_m (m : Z) (l : location) :
  shr_m (shr_record_of_loc m l) = m.
Proof. destruct l as [|[]]; reflexivity. Qed.

Lemma shr_1_div2 (mrs : shr_record) :
  0 <= shr_m mrs -> shr_m (shr_1 mrs) = shr_m mrs / 2.
Proof.
  destruct mrs as [m r s]. simpl. intros Hm.
  rewrite <- Z.div2_div.
  destruct m as [|[p|p|]|p]; try reflexivity; lia.
Qed.

Lemma iter_shr_1_div (p : positive) :
  forall mrs, 0 <= shr_m mrs ->
    shr_m (SpecFloat.iter_pos shr_1 p mrs) = shr_m mrs / 2 ^ Zpos p.
Proof.
  assert (Hdiv : forall a b, 0 <= a -> 0 <= a / 2 ^ Zpos b).
  { intros a b Ha. apply Z.div_pos; [assumption | lia]. }
  induction p as [p IH|p IH|]; intros mrs Hm; cbn [SpecFloat.iter_pos].
  - assert (H1 : 0 <= shr_m (shr_1 mrs)).
    { rewrite shr_1_div2 by assumption. apply Z.div_pos; lia. }
    rewrite IH.
    + rewrite IH by assumption. rewrite shr_1_div2 by assumption.
      rewrite !Z.div_div by lia.
      f_equal. rewrite (Pos2Z.inj_xI p).
      replace (2 * Zpos p + 1) with (1 + Zpos p + Zpos p) by lia.
      rewrite !Z.pow_add_r by lia. lia.
    + rewrite IH by assumption. apply Hdiv. assumption.
  - rewrite IH.
    + rewrite IH by assumption. rewrite Z.div_div by lia.
      f_equal. rewrite (Pos2Z.inj_xO p).
      replace (2 * Zpos p) with (Zpos p + Zpos p) by lia.
      rewrite Z.pow_add_r by lia. reflexivity.
    + rewrite IH by assumption. apply Hdiv. assumption.
  - rewrite shr_1_div2 by assumption. reflexivity.
Qed.

Lemma shr_nonneg (mrs : shr_record) (e n : Z) :
  0 <= shr_m mrs -> 0 <= shr_m (fst (shr mrs e n)).
Proof.
  intros Hm. destruct n as [|p|p]; cbn [shr fst]; try assumption.
  rewrite iter_shr_1_div by assumption. apply Z.div_pos; lia.
Qed.

Lemma round_nearest_even_nonneg (m : Z) (l : location) :
  0 <= m -> 0 <= round_nearest_even m l.
Proof.
  intros Hm. destruct l as [|[]]; simpl; try lia.
  destruct (Z.even m); lia.
Qed.

Lemma round_nearest_even_bounds (m : Z) (l : location) :
  m <= round_nearest_even m l <= m + 1.
Proof.
  destruct l as [|[]]; simpl; try lia.
  destruct (Z.even m); lia.
Qed.

(** Rounding a non-negative mantissa never yields a NaN or a negative
    number. *)
Lemma binary_round_aux_nonneg (mx ex : Z) (lx : location) :
  0 <= mx -> nonneg (binary_round_aux prec emax false mx ex lx) = true.
Proof.
  intros Hm. unfold binary_round_aux, shr_fexp.
  destruct (shr (shr_record_of_loc mx lx) ex _) as [mrs1 e1] eqn:E1.
  assert (H1 : 0 <= shr_m mrs1).
  { replace mrs1 with (fst (shr (shr_record_of_loc mx lx) ex
      (fexp prec emax (Zdigits2 mx + ex) - ex))) by (rewrite E1; reflexivity).
    apply shr_nonneg. rewrite shr_record_of_loc_m. assumption. }
  set (m1 := round_nearest_even (shr_m mrs1) (loc_of_shr_record mrs1)).
  assert (Hm1 : 0 <= m1) by (apply round_nearest_even_nonneg; assumption).
  destruct (shr (shr_record_of_loc m1 loc_Exact) e1 _) as [mrs2 e2] eqn:E2.
  assert (H2 : 0 <= shr_m mrs2).
  { replace mrs2 with (fst (shr (shr_record_of_loc m1 loc_Exact) e1
      (fexp prec emax (Zdigits2 m1 + e1) - e1))) by (rewrite E2; reflexivity).
    apply shr_nonneg. simpl. assumption. }
  destruct (shr_m mrs2) as [|q|q]; try reflexivity; try lia.
  destruct (e2 <=? emax - prec); reflexivity.
Qed.

  (** *** Conversion of a positive integer of moderate size is finite *)

Lemma fexp_normal (d : Z) :
  emin prec emax + prec <= d -> fexp prec emax d = d - prec.
Proof. unfold fexp, emin, prec, emax. lia. Qed.

(** A mantissa of exactly [prec] digits whose exponent is in range is
    already in canonical form: rounding leaves it alone. *)
Lemma binary_round_aux_canonical (m : positive) (e : Z) :
  Zpos (digits2_pos m) = prec -> emin prec emax <= e <= emax - prec ->
  binary_round_aux prec emax false (Zpos m) e loc_Exact
  = S754_finite false m e.
Proof.
  intros Hd [He1 He2]. unfold binary_round_aux, shr_fexp.
  cbn [Zdigits2 shr_record_of_loc].
  assert (Hn : fexp prec emax (Zpos (digits2_pos m) + e) - e = 0).
  { rewrite fexp_normal; lia. }
  rewrite Hn. cbn [shr shr_m loc_of_shr_record round_nearest_even Zdigits2
                   shr_record_of_loc].
  rewrite Hn. cbn [shr shr_m].
  apply Z.leb_le in He2. rewrite He2. reflexivity.
Qed.

(** The second rounding stage on a mantissa of [prec] or [prec + 1]
    digits keeps it positive and raises the exponent by at most one. *)
Lemma shr_fexp_renormalize (m e : Z) :
  2 ^ 52 <= m <= 2 ^ 53 -> 0 <= e ->
  exists mrs e', shr_fexp prec emax m e loc_Exact = (mrs, e')
                 /\ 0 < shr_m mrs /\ e' <= e + 1.
Proof.
  intros [Hlo Hhi] He. unfold shr_fexp.
  destruct (Z.eq_dec m (2 ^ 53)) as [->|Hne].
  - change (Zdigits2 (2 ^ 53)) with 54.
    rewrite fexp_normal by (unfold emin, prec, emax; lia).
    replace (54 + e - prec - e) with 1 by (unfold prec; lia).
    eexists _, _. split; [reflexivity|]. split; [reflexivity | lia].
  - assert (Hlog : Z.log2 m = 52).
    { apply Z.log2_unique; [lia|]. change (Z.succ 52) with 53. lia. }
    destruct m as [|q|q]; try lia.
    cbn [Zdigits2]. rewrite Zdigits2_log2, Hlog.
    rewrite fexp_normal by (unfold emin, prec, emax; lia).
    replace (52 + 1 + e - prec - e) with 0 by (unfold prec; lia).
    eexists _, _. split; [reflexivity|]. cbn. split; lia.
Qed.

(** The first rounding stage on a mantissa of more than [prec] digits
    cuts it back to exactly [prec] digits. *)
Lemma shr_fexp_large (m : positive) :
  let d := Zpos (digits2_pos m) in
  prec < d <= 1023 ->
  exists mrs, shr_fexp prec emax (Zpos m) 0 loc_Exact = (mrs, d - prec)
              /\ 2 ^ 52 <= shr_m mrs < 2 ^ 53.
Proof.
  intros d [Hd1 Hd2].
  assert (Hb : 2 ^ (d - 1) <= Zpos m < 2 ^ d).
  { unfold d. rewrite Zdigits2_log2.
    replace (Z.log2 (Zpos m) + 1 - 1) with (Z.log2 (Zpos m)) by lia.
    apply Z.log2_spec. lia. }
  unfold shr_fexp. cbn [Zdigits2 shr_record_of_loc]. fold d.
  rewrite Z.add_0_r, fexp_normal by (unfold emin, prec, emax in *; lia).
  rewrite Z.sub_0_r.
  destruct (d - prec) as [|p|p] eqn:Ep; try (unfold prec in *; lia).
  cbn [shr]. eexists. split; [reflexivity|].
  rewrite iter_shr_1_div by (cbn; lia). cbn [shr_m].
  rewrite <- Ep.
  assert (Hp : 0 < 2 ^ (d - prec))
    by (apply Z.pow_pos_nonneg; unfold prec in *; lia).
  split.
  - apply Z.div_le_lower_bound; [assumption|].
    rewrite <- Z.pow_add_r by (unfold prec in *; lia).
    replace (d - prec + 52) with (d - 1) by (unfold prec; lia). lia.
  - apply Z.div_lt_upper_bound; [assumption|].
    rewrite <- Z.pow_add_r by (unfold prec in *; lia).
    replace (d - prec + 53) with d by (unfold prec; lia). lia.
Qed.

Lemma binary_round_aux_large (m : positive) :
  prec < Zpos (digits2_pos m) <= 1023 ->
  pos_finite (binary_round_aux prec emax false (Zpos m) 0 loc_Exact) = true.
Proof.
  intros Hd.
  destruct (shr_fexp_large m Hd) as (mrs1 & E1 & Hm1).
  unfold binary_round_aux. rewrite E1.
  set (m1 := round_nearest_even _ _).
  assert (Hr : 2 ^ 52 <= m1 <= 2 ^ 53).
  { pose proof (round_nearest_even_bounds (shr_m mrs1) (loc_of_shr_record mrs1)).
    fold m1 in H. lia. }
  destruct (shr_fexp_renormalize m1 (Zpos (digits2_pos m) - prec))
    as (mrs2 & e2 & E2 & Hpos & He2); [assumption | lia |].
  rewrite E2.
  destruct (shr_m mrs2) as [|q|q]; try lia.
  replace (e2 <=? emax - prec) with true; [reflexivity|].
  symmetry. apply Z.leb_le. unfold emax, prec in *. lia.
Qed.

Lemma of_Z_pos_finite (z : Z) :
  0 < z -> Z.log2 z < 1023 -> pos_finite (of_Z z) = true.
Proof.
  intros Hz Hlog. destruct z as [|m|m]; try lia.
  unfold of_Z, binary_normalize, binary_round.
  pose proof (Zdigits2_log2 m) as Hd.
  set (d := Zpos (digits2_pos m)) in *.
  rewrite Z.add_0_r.
  assert (Hd1 : 1 <= d) by (unfold d; lia).
  rewrite fexp_normal by (unfold emin, prec, emax; lia).
  unfold shl_align. rewrite Z.sub_0_r.
  destruct (d - prec) as [|k|k] eqn:Ek.
  - rewrite binary_round_aux_canonical; [reflexivity | fold d; lia |].
    unfold emin, emax, prec. lia.
  - apply binary_round_aux_large. fold d. unfold prec in *. lia.
  - rewrite binary_round_aux_canonical; [reflexivity | |].
    + rewrite digits2_pos_iter_xO, Pos2Z.inj_add. fold d. lia.
    + unfold emin, emax, prec in *. lia.
Qed.

(** *** Rounding a mantissa of moderate size does not overflow *)

Lemma Zdigits2_nonneg (m : Z) : 0 <= Zdigits2 m.
Proof. destruct m; simpl; lia. Qed.

Lemma Zdigits2_lt_pow2 (m : Z) : 0 <= m -> m < 2 ^ Zdigits2 m.
Proof.
  intros Hm. destruct m as [|p|p]; try lia.
  - simpl. lia.
  - cbn [Zdigits2]. rewrite Zdigits2_log2.
    apply (Z.log2_spec (Zpos p)). lia.
Qed.

Lemma Zdigits2_le (m k : Z) : 0 <= k -> 0 <= m < 2 ^ k -> Zdigits2 m <= k.
Proof.
  intros Hk [Hm Hlt]. destruct m as [|p|p]; try lia.
  - simpl. lia.
  - cbn [Zdigits2]. rewrite Zdigits2_log2.
    apply Z.log2_lt_pow2 in Hlt; lia.
Qed.

Lemma shr_spec (mrs : shr_record) (e n : Z) :
  0 <= shr_m mrs ->
  exists mrs', shr mrs e n = (mrs', e + Z.max 0 n)
               /\ shr_m mrs' = shr_m mrs / 2 ^ Z.max 0 n.
Proof.
  intros Hm. destruct n as [|p|p]; cbn [shr].
  - exists mrs. rewrite Z.add_0_r. split; [reflexivity|].
    change (2 ^ Z.max 0 0) with 1. rewrite Z.div_1_r. reflexivity.
  - exists (SpecFloat.iter_pos shr_1 p mrs).
    replace (Z.max 0 (Zpos p)) with (Zpos p) by lia.
    split; [reflexivity|]. apply iter_shr_1_div. assumption.
  - exists mrs. rewrite Z.add_0_r. split; [reflexivity|].
    change (2 ^ Z.max 0 (Zneg p)) with 1. rewrite Z.div_1_r. reflexivity.
Qed.

(** One rounding stage: the mantissa stays non-negative, the magnitude
    [digits + exponent] does not grow and the exponent stays in range. *)
Lemma shr_fexp_bound (m e B : Z) (l : location) :
  0 <= m -> Zdigits2 m + e <= B -> 0 <= B <= 1024 -> e <= emax - prec ->
  exists mrs e', shr_fexp prec emax m e l = (mrs, e')
                 /\ 0 <= shr_m mrs
                 /\ Zdigits2 (shr_m mrs) + e' <= B
                 /\ e' <= emax - prec.
Proof.
  intros Hm HB HB' He. unfold shr_fexp.
  set (n := fexp prec emax (Zdigits2 m + e) - e).
  destruct (shr_spec (shr_record_of_loc m l) e n) as (mrs & E & Hv).
  { rewrite shr_record_of_loc_m. assumption. }
  rewrite shr_record_of_loc_m in Hv.
  exists mrs, (e + Z.max 0 n). split; [assumption|].
  pose proof (Zdigits2_nonneg m) as Hd0.
  pose proof (Zdigits2_lt_pow2 m Hm) as Hd1.
  assert (Hn : n = Z.max (Zdigits2 m + e - prec) (emin prec emax) - e)
    by reflexivity.
  assert (Hpow : 0 < 2 ^ Z.max 0 n) by (apply Z.pow_pos_nonneg; lia).
  assert (Hnn : 0 <= shr_m mrs) by (rewrite Hv; apply Z.div_pos; lia).
  split; [assumption|].
  unfold emin, emax, prec in *.
  destruct (Z.le_gt_cases n 0) as [Hle|Hgt].
  - rewrite Z.max_l in * by lia.
    change (2 ^ 0) with 1 in Hv. rewrite Z.div_1_r in Hv. rewrite Hv. lia.
  - rewrite Z.max_r in * by lia.
    destruct (Z.le_gt_cases n (Zdigits2 m)) as [Hnd|Hnd].
    + assert (Hlt : shr_m mrs < 2 ^ (Zdigits2 m - n)).
      { rewrite Hv. apply Z.div_lt_upper_bound; [lia|].
        rewrite <- Z.pow_add_r by lia.
        replace (n + (Zdigits2 m - n)) with (Zdigits2 m) by lia. assumption. }
      pose proof (Zdigits2_le (shr_m mrs) (Zdigits2 m - n) ltac:(lia)
                    (conj Hnn Hlt)). lia.
    + assert (Hz : shr_m mrs = 0).
      { rewrite Hv. apply Z.div_small. split; [assumption|].
        apply Z.lt_le_trans with (2 ^ Zdigits2 m); [assumption|].
        apply Z.pow_le_mono_r; lia. }
      rewrite Hz. simpl. lia.
Qed.

Lemma round_nearest_even_digits (m : Z) (l : location) :
  0 <= m -> Zdigits2 (round_nearest_even m l) <= Zdigits2 m + 1.
Proof.
  intros Hm. pose proof (round_nearest_even_bounds m l) as Hr.
  pose proof (Zdigits2_nonneg m) as Hd0.
  pose proof (Zdigits2_lt_pow2 m Hm) as Hd1.
  apply Zdigits2_le; [lia|]. split; [lia|].
  rewrite Z.pow_add_r by lia. lia.
Qed.

(** Rounding a non-negative mantissa of magnitude below [2^1022] yields
    zero or a finite number. *)
Lemma binary_round_aux_not_infinite (mx ex : Z) (lx : location) :
  0 <= mx -> Zdigits2 mx + ex <= 1022 -> ex <= emax - prec ->
  is_infinite (binary_round_aux prec emax false mx ex lx) = false.
Proof.
  intros Hm Hd He. unfold binary_round_aux.
  destruct (shr_fexp_bound mx ex 1022 lx Hm) as (mrs1 & e1 & -> & H1 & Hd1 & He1);
    [lia | lia | assumption |].
  set (m1 := round_nearest_even _ _).
  assert (Hm1 : 0 <= m1) by (apply round_nearest_even_nonneg; assumption).
  assert (Hdm1 : Zdigits2 m1 + e1 <= 1023).
  { pose proof (round_nearest_even_digits (shr_m mrs1)
                  (loc_of_shr_record mrs1) H1). fold m1 in H. lia. }
  destruct (shr_fexp_bound m1 e1 1023 loc_Exact Hm1) as (mrs2 & e2 & -> & H2 & _ & He2);
    [lia | lia | assumption |].
  destruct (shr_m mrs2) as [|q|q]; try reflexivity.
  apply Z.leb_le in He2. rewrite He2. reflexivity.
Qed.

Lemma of_Z_zero : of_Z 0 = zero.
Proof. reflexivity. Qed.

End Rounding_facts.

(** *** Closure of the arithmetic on non-negative numbers *)

Section Arithmetic_facts.

Lemma nonneg_not_nan (x : float) : nonneg x = true -> is_nan x = false.
Proof. destruct x as [[]|[]| |[] m e]; simpl; congruence. Qed.

Lemma pos_finite_nonneg (x : float) : pos_finite x = true -> nonneg x = true.
Proof. destruct x as [[]|[]| |[] m e]; simpl; congruence. Qed.

Lemma binary_round_nonneg (m : positive) (e : Z) :
  nonneg (binary_round prec emax false m e) = true.
Proof.
  unfold binary_round. destruct (shl_align _ _ _) as [mz ez].
  apply binary_round_aux_nonneg. lia.
Qed.

Lemma mul_nonneg (x y : float) :
  nonneg x = true -> is_infinite x = false ->
  nonneg y = true -> is_infinite y = false ->
  nonneg (mul x y) = true.
Proof.
  destruct x as [[]|[]| |[] mx ex], y as [[]|[]| |[] my ey];
    simpl; try congruence.
  intros _ _ _ _. apply binary_round_aux_nonneg. lia.
Qed.

Lemma add_nonneg (x y : float) :
  nonneg x = true -> nonneg y = true -> nonneg (add x y) = true.
Proof.
  destruct x as [[]|[]| |[] mx ex], y as [[]|[]| |[] my ey];
    simpl; try congruence.
  intros _ _. unfold cond_Zopp.
  destruct (shl_align mx ex _) as [ax ?], (shl_align my ey _) as [ay ?].
  cbn [fst]. change (Zpos ax + Zpos ay) with (Zpos (ax + ay)).
  apply binary_round_nonneg.
Qed.

Lemma div_nonneg (x y : float) :
  nonneg x = true -> pos_finite y = true -> nonneg (div x y) = true.
Proof.
  destruct x as [[]|[]| |[] mx ex], y as [[]|[]| |[] my ey];
    simpl; try congruence.
  intros _ _. unfold SFdiv_core_binary.
  set (s := _ - _ - _).
  set (m' := match s with 0 => _ | Zpos _ => _ | Zneg _ => _ end).
  assert (Hm' : 0 <= m').
  { unfold m'. destruct s; try lia. apply Z.shiftl_nonneg. lia. }
  pose proof (Z.div_eucl_eq m' (Zpos my) ltac:(lia)) as Heq.
  pose proof (Z.mod_pos_bound m' (Zpos my) ltac:(lia)) as Hmod.
  unfold Z.modulo in Hmod.
  destruct (Z.div_eucl m' (Zpos my)) as [q r].
  apply binary_round_aux_nonneg. nia.
Qed.

End Arithmetic_facts.

(** *** The order on floats *)

Section Order_facts.

Lemma SFcompare_antisym (x y : float) :
  SFcompare y x = option_map CompOpp (SFcompare x y).
Proof.
  destruct x as [sx|sx| |sx mx ex], y as [sy|sy| |sy my ey];
    simpl; try reflexivity;
    try (destruct sx; reflexivity); try (destruct sy; reflexivity);
    try (destruct sx, sy; reflexivity).
  f_equal. rewrite (Z.compare_antisym ex ey).
  assert (Hm : PosDef.Pos.compare_cont Eq my mx
               = CompOpp (PosDef.Pos.compare_cont Eq mx my))
    by (symmetry; apply (Pos.compare_cont_antisym mx my Eq)).
  rewrite Hm.
  destruct sx, sy; try reflexivity;
    destruct (ex ?= ey); simpl; try reflexivity;
    destruct (PosDef.Pos.compare_cont Eq mx my); reflexivity.
Qed.

Lemma SFcompare_total (x y : float) :
  is_nan x = false -> is_nan y = false ->
  exists c, SFcompare x y = Some c.
Proof.
  destruct x as [sx|sx| |sx mx ex], y as [sy|sy| |sy my ey];
    simpl; try congruence; eauto.
Qed.

(** [not (x < y)] gives [y <= x] as soon as neither is a NaN. *)
Lemma ltb_false_leb (x y : float) :
  is_nan x = false -> is_nan y = false ->
  ltb x y = false -> leb y x = true.
Proof.
  intros Hx Hy. unfold ltb, leb, SFltb, SFleb.
  rewrite (SFcompare_antisym x y).
  destruct (SFcompare_total x y Hx Hy) as [c ->].
  destruct c; simpl; congruence.
Qed.

Lemma ltb_leb (x y : float) : ltb x y = true -> leb x y = true.
Proof.
  unfold ltb, leb, SFltb, SFleb.
  destruct (SFcompare x y) as [[]|]; congruence.
Qed.

Lemma SFcompare_Eq_l (x y : float) :
  SFcompare x y = Some Eq -> forall z, SFcompare x z = SFcompare y z.
Proof.
  destruct x as [sx|sx| |sx mx ex], y as [sy|sy| |sy my ey];
    simpl; try discriminate; intros H z;
    try (destruct sx; discriminate); try (destruct sy; discriminate).
  - destruct z; reflexivity.
  - destruct sx, sy; try discriminate; reflexivity.
  - assert (Hs : sx = sy) by (destruct sx, sy; congruence). subst sy.
    assert (He : (ex ?= ey) = Eq).
    { destruct sx, (ex ?= ey); congruence. }
    apply Z.compare_eq in He. subst ey. rewrite Z.compare_refl in H.
    assert (Hm : Pos.compare_cont Eq mx my = Eq).
    { destruct sx; [|congruence].
      destruct (Pos.compare_cont Eq mx my) eqn:E; simpl in H;
        rewrite ?E in H; simpl in H; congruence. }
    apply Pos.compare_eq in Hm. subst my. reflexivity.
Qed.

(** Two numbers equal to the same number are not ordered by [<]. *)
Lemma eqb_eqb_not_ltb (x y k : float) :
  eqb x k = true -> eqb y k = true -> ltb x y = false.
Proof.
  unfold eqb, ltb, SFeqb, SFltb. intros Hx Hy.
  assert (Ex : SFcompare x k = Some Eq)
    by (destruct (SFcompare x k) as [[]|]; congruence).
  assert (Ey : SFcompare y k = Some Eq)
    by (destruct (SFcompare y k) as [[]|]; congruence).
  rewrite (SFcompare_Eq_l x k Ex y), (SFcompare_antisym y k), Ey.
  reflexivity.
Qed.

Lemma leb_trans (x y z : float) :
  leb x y = true -> leb y z = true -> leb x z = true.
Proof.
  unfold leb, SFleb.
  destruct x as [sx|sx| |sx mx ex], y as [sy|sy| |sy my ey],
           z as [sz|sz| |sz mz ez];
    cbn [SFcompare]; try discriminate; try reflexivity;
    repeat match goal with s : bool |- _ => destruct s end;
    try discriminate; try reflexivity;
    change PosDef.Pos.compare_cont with Pos.compare_cont;
    fold (Pos.compare mx my) (Pos.compare my mz) (Pos.compare mx mz);
    repeat match goal with
           | |- context [Z.compare ?a ?b] => destruct (Z.compare_spec a b)
           | |- context [Pos.compare ?a ?b] => destruct (Pos.compare_spec a b)
           end; cbn; try discriminate; try reflexivity; intros; try lia.
Qed.

Lemma eqb_refl (x : float) : is_nan x = false -> eqb x x = true.
Proof.
  unfold eqb, SFeqb.
  destruct x as [s|s| |s m e]; cbn [SFcompare is_nan]; try discriminate;
    intros _; try reflexivity; try (destruct s; reflexivity).
  rewrite Z.compare_refl.
  change (PosDef.Pos.compare_cont Eq m m) with (Pos.compare m m).
  rewrite Pos.compare_refl. destruct s; reflexivity.
Qed.

Lemma leb_antisym (x y : float) :
  leb x y = true -> leb y x = true -> eqb x y = true.
Proof.
  unfold leb, eqb, SFleb, SFeqb. rewrite (SFcompare_antisym x y).
  destruct (SFcompare x y) as [[]|]; cbn; congruence.
Qed.

Lemma eqb_sym (x y : float) : eqb x y = true -> eqb y x = true.
Proof.
  unfold eqb, SFeqb. rewrite (SFcompare_antisym x y).
  destruct (SFcompare x y) as [[]|]; cbn; congruence.
Qed.

End Order_facts.


(** * Facts about the Python primitives *)

(** ** Conversions and divisions on integers of moderate size *)

Lemma float_of_int_small (z : Z) :
  0 <= z < 2 ^ 66 ->
  float_of_int z = Ok (of_Z z)
  /\ nonneg (of_Z z) = true /\ is_infinite (of_Z z) = false.
Proof.
  intros [Hz Hlt]. unfold float_of_int.
  destruct (Z.eq_dec z 0) as [->|Hne]; [repeat split|].
  assert (Hp : pos_finite (of_Z z) = true).
  { apply of_Z_pos_finite; [lia|].
    apply Z.log2_lt_pow2 in Hlt; lia. }
  destruct (of_Z z) as [[]|[]| |[] m e]; simpl in *; try discriminate.
  repeat split.
Qed.

Lemma float_of_int_pos (z : Z) :
  0 < z < 2 ^ 66 -> pos_finite (of_Z z) = true.
Proof.
  intros [Hz Hlt]. apply of_Z_pos_finite; [lia|].
  apply Z.log2_lt_pow2 in Hlt; lia.
Qed.

Lemma float_truediv_pos (x n : float) :
  pos_finite n = true -> float_truediv x n = Ok (div x n).
Proof.
  destruct n as [[]|[]| |[] m e]; simpl; try discriminate. reflexivity.
Qed.

Lemma exact_div_not_infinite (a b : Z) :
  0 <= a < 2 ^ 66 -> 0 < b ->
  is_infinite (div (exact_of_int a) (exact_of_int b)) = false.
Proof.
  intros [Ha Hlt] Hb.
  destruct b as [|pb|pb]; try lia.
  destruct a as [|pa|pa]; try lia; [reflexivity|].
  simpl. unfold SFdiv_core_binary.
  set (d1 := Zdigits2 (Zpos pa)). set (d2 := Zdigits2 (Zpos pb)).
  set (e' := Z.min (fexp prec emax (d1 + 0 - (d2 + 0))) (0 - 0)).
  set (s := 0 - 0 - e').
  set (m' := match s with 0 => _ | Zpos _ => _ | Zneg _ => _ end).
  assert (He' : e' <= 0) by (unfold e'; lia).
  assert (Hd1 : d1 <= 66).
  { apply Zdigits2_le; lia. }
  assert (Hd1' : Zpos pa < 2 ^ d1) by (apply Zdigits2_lt_pow2; lia).
  assert (Hd0 : 0 <= d1) by apply Zdigits2_nonneg.
  assert (Hm' : 0 <= m' < 2 ^ (d1 + s)).
  { unfold m'. destruct s as [|ps|ps] eqn:Es; try lia.
    - rewrite Z.add_0_r. lia.
    - rewrite Z.shiftl_mul_pow2 by lia. rewrite Z.pow_add_r by lia.
      assert (0 < 2 ^ Zpos ps) by (apply Z.pow_pos_nonneg; lia). nia. }
  pose proof (Z.div_eucl_eq m' (Zpos pb) ltac:(lia)) as Heq.
  pose proof (Z.mod_pos_bound m' (Zpos pb) ltac:(lia)) as Hmod.
  unfold Z.modulo in Hmod.
  destruct (Z.div_eucl m' (Zpos pb)) as [q r].
  assert (Hq : 0 <= q <= m') by nia.
  apply binary_round_aux_not_infinite; [lia | | unfold emax, prec; lia].
  assert (Zdigits2 q <= d1 + s); [|lia].
  apply Zdigits2_le; lia.
Qed.

Lemma int_truediv_small (a b : Z) :
  0 <= a < 2 ^ 66 -> 0 < b ->
  int_truediv a b = Ok (div (exact_of_int a) (exact_of_int b)).
Proof.
  intros Ha Hb. unfold int_truediv.
  replace (b =? 0) with false by (symmetry; apply Z.eqb_neq; lia).
  rewrite exact_div_not_infinite by assumption. reflexivity.
Qed.

(** ** Splitting into lines *)

Lemma split_not_nil (sep : ascii) (s : string) : split sep s <> [].
Proof.
  destruct s as [|c s]; simpl; [discriminate|].
  destruct (Ascii.eqb c sep); [discriminate|].
  destruct (split sep s); discriminate.
Qed.

Lemma length_split (sep : ascii) (s : string) :
  (1 <= length (split sep s) <= S (String.length s))%nat.
Proof.
  induction s as [|c s IH]; simpl; [lia|].
  destruct (Ascii.eqb c sep); simpl; [lia|].
  destruct (split sep s) as [|l ls]; simpl in *; lia.
Qed.

Lemma len_filter_le {A : Type} (p : A -> bool) (l : list A) :
  0 <= len (List.filter p l) <= len l.
Proof.
  unfold len. pose proof (List.filter_length_le p l). lia.
Qed.

Lemma len_lines_bounds (content : string) :
  py_str content -> 0 < len (split newline content) <= 2 ^ 63.
Proof.
  unfold py_str, len. pose proof (length_split newline content). lia.
Qed.

(** * The structural analyzer *)

(** ** Strings: prefixes and occurrences *)

Lemma append_cons (x : ascii) (a b : string) :
  String x a +:+ b = String x (a +:+ b).
Proof. reflexivity. Qed.

Lemma append_nil_l (a : string) : EmptyString +:+ a = a.
Proof. reflexivity. Qed.

Ltac norm_append := rewrite ?append_cons, ?append_nil_l in *.

Lemma append_assoc (a b c : string) : (a +:+ b) +:+ c = a +:+ (b +:+ c).
Proof.
  induction a as [|x a IH]; norm_append; [reflexivity | now rewrite IH].
Qed.

Lemma append_nil_r (a : string) : a +:+ EmptyString = a.
Proof.
  induction a as [|x a IH]; norm_append; [reflexivity | now rewrite IH].
Qed.

Lemma length_append (a b : string) :
  String.length (a +:+ b) = (String.length a + String.length b)%nat.
Proof.
  induction a as [|x a IH]; norm_append; simpl; [reflexivity | now rewrite IH].
Qed.

Lemma prefix_iff (p s : string) :
  String.prefix p s = true <-> exists post, s = p +:+ post.
Proof.
  revert s. induction p as [|a p IH]; intros [|b s]; simpl.
  - split; [intros _; exists EmptyString; reflexivity | reflexivity].
  - split; [intros _; exists (String b s); reflexivity | reflexivity].
  - split; [discriminate | intros [post H]; norm_append; discriminate].
  - destruct (ascii_dec a b) as [->|Hne].
    + rewrite IH. split; intros [post H]; exists post; norm_append; congruence.
    + split; [discriminate | intros [post H]; norm_append; congruence].
Qed.

Lemma contains_iff (sub s : string) : contains sub s = true <-> occurs sub s.
Proof.
  unfold occurs. induction s as [|c s IH].
  - cbn [contains]. rewrite orb_false_r, prefix_iff. split.
    + intros [post H]. exists EmptyString, post. exact H.
    + intros (pre & post & H). destruct pre; norm_append; [|discriminate].
      exists post. exact H.
  - cbn [contains]. rewrite orb_true_iff, IH, prefix_iff. split.
    + intros [[post H] | (pre & post & H)].
      * exists EmptyString, post. exact H.
      * exists (String c pre), post. norm_append. now rewrite H.
    + intros (pre & post & H). destruct pre as [|x pre]; norm_append.
      * left. exists post. exact H.
      * right. exists pre, post. congruence.
Qed.

Lemma occurs_trans (a b c : string) : occurs a b -> occurs b c -> occurs a c.
Proof.
  intros (p1 & q1 & ->) (p2 & q2 & ->).
  exists (p2 +:+ p1), (q1 +:+ q2). now rewrite !append_assoc.
Qed.

Lemma prefix_nil (s : string) : String.prefix EmptyString s = true.
Proof. destruct s; reflexivity. Qed.

(** [c in s] for a single character. *)
Lemma contains_char_iff (c : ascii) (s : string) :
  contains (String c EmptyString) s = true <-> exists i, char_at c i s.
Proof.
  unfold char_at. induction s as [|b s IH].
  - cbn. split; [discriminate | intros [i H]; discriminate].
  - cbn [contains String.prefix]. rewrite prefix_nil, orb_true_iff, IH.
    destruct (ascii_dec c b) as [->|Hne]; split.
    + intros _. exists 0%nat. reflexivity.
    + intros _. left. reflexivity.
    + intros [H | [i H]]; [discriminate|]. exists (S i). exact H.
    + intros [[|i] H]; simpl in H; [congruence|]. right. exists i. exact H.
Qed.

(** ** The three tests on a line, in the words of the specification *)

Lemma is_heading_spec (l : string) : is_heading l = spec_heading l.
Proof.
  destruct l as [|c l]; [reflexivity|].
  unfold is_heading, startswith. cbn [String.prefix spec_heading].
  rewrite prefix_nil.
  destruct (ascii_dec "#" c) as [<-|Hne]; [reflexivity|].
  symmetry. apply Ascii.eqb_neq. congruence.
Qed.

Lemma spec_heading_iff (l : string) :
  spec_heading l = true <-> char_at "#" 0 l.
Proof.
  unfold char_at. destruct l as [|c l]; simpl.
  - split; discriminate.
  - rewrite Ascii.eqb_eq. split; congruence.
Qed.

Lemma has_link_iff (l : string) :
  has_link l = true <-> occurs "[[" l \/ occurs "](" l.
Proof. unfold has_link. now rewrite orb_true_iff, !contains_iff. Qed.

Lemma spec_tag_iff (l : string) :
  spec_tag l = true <-> exists i, (0 < i)%nat /\ char_at "#" i l.
Proof.
  destruct l as [|c l]; simpl.
  - split; [discriminate | intros (i & _ & H); discriminate].
  - rewrite contains_char_iff. split.
    + intros [i H]. exists (S i). split; [lia | exact H].
    + intros ([|i] & Hi & H); [lia|]. exists i. exact H.
Qed.

(** The analyzer's tag test: some [#] in the line, none at position 0. *)
Lemma is_tag_iff (l : string) :
  is_tag l = true <-> (exists i, char_at "#" i l) /\ ~ char_at "#" 0 l.
Proof.
  unfold is_tag. rewrite andb_true_iff, negb_true_iff, contains_char_iff.
  fold (is_heading l). rewrite is_heading_spec, <- spec_heading_iff.
  destruct (spec_heading l); intuition congruence.
Qed.

(** A line that passes the analyzer's tag test is never a heading. *)
Lemma is_tag_not_heading (l : string) :
  is_tag l = true -> is_heading l = false.
Proof.
  unfold is_tag, is_heading. rewrite andb_true_iff, negb_true_iff. tauto.
Qed.

Lemma len_split_newline (content : string) :
  len (split newline content) = spec_line_count content.
Proof.
  unfold len, spec_line_count. f_equal.
  induction content as [|c s IH]; [reflexivity|].
  cbn [split newlines].
  destruct (Ascii.eqb c newline); simpl; [now rewrite IH|].
  pose proof (split_not_nil newline s).
  destruct (split newline s); simpl in *; congruence.
Qed.

(** ** The matcher finds what the patterns denote *)

Lemma match_run_Some {R : Type} (c : ascii) (k : string -> option R)
    (s run : string) (r : R) :
  match_run c k s = Some (run, r) ->
  exists rest, s = run +:+ rest /\ run <> EmptyString
               /\ free_of c run = true /\ k rest = Some r.
Proof.
  revert run r. induction s as [|a s IH]; intros run r; cbn [match_run].
  - discriminate.
  - destruct (Ascii.eqb a c) eqn:Ea; [discriminate|].
    destruct (match_run c k s) as [[run' r']|] eqn:Em.
    + intros [= <- <-]. destruct (IH _ _ eq_refl) as (rest & -> & _ & Hf & Hk).
      exists rest. norm_append. repeat split; try assumption; try discriminate.
      cbn [free_of]. now rewrite Ea, Hf.
    + destruct (k s) as [r'|] eqn:Hk; [|discriminate].
      intros [= <- <-]. exists s. norm_append.
      repeat split; try assumption; try discriminate.
      cbn [free_of]. now rewrite Ea.
Qed.

Lemma match_here_matches (re : regex) :
  forall s g n, match_here re s = Some (g, n) ->
    exists m rest, s = m +:+ rest /\ n = String.length m /\ matches re m g.
Proof.
  induction re as [|[c|c|c] re IH]; intros s g n; cbn [match_here].
  - intros [= <- <-]. exists EmptyString, s. repeat split. constructor.
  - destruct s as [|a s]; [discriminate|].
    destruct (Ascii.eqb a c) eqn:Ea; [|discriminate].
    apply Ascii.eqb_eq in Ea. subst a.
    destruct (match_here re s) as [[g' n']|] eqn:Em; [|discriminate].
    intros [= <- <-]. destruct (IH _ _ _ Em) as (m & rest & -> & -> & Hm).
    exists (String c m), rest. norm_append. repeat split. now constructor.
  - destruct (match_run c (match_here re) s) as [[run [g' n']]|] eqn:Er;
      [|discriminate].
    intros [= <- <-].
    destruct (match_run_Some _ _ _ _ _ Er) as (rest & -> & Hne & Hf & Hk).
    destruct (IH _ _ _ Hk) as (m & rest' & -> & -> & Hm).
    exists (run +:+ m), rest'. rewrite append_assoc, length_append.
    repeat split. now constructor.
  - destruct (match_run c (match_here re) s) as [[run [g' n']]|] eqn:Er;
      [|discriminate].
    intros [= <- <-].
    destruct (match_run_Some _ _ _ _ _ Er) as (rest & -> & Hne & Hf & Hk).
    destruct (IH _ _ _ Hk) as (m & rest' & -> & -> & Hm).
    exists (run +:+ m), rest'. rewrite append_assoc, length_append.
    repeat split. now apply matches_GroupNotPlus with (g := g').
Qed.

Lemma occurs_cons (c : ascii) (sub s : string) :
  occurs sub s -> occurs sub (String c s).
Proof.
  intros (pre & post & ->). exists (String c pre), post. reflexivity.
Qed.

(** Every string returned by [findall] is the group of a match that
    occurs in the scanned text. *)
Lemma findall_from_matches (re : regex) (s : string) :
  forall skip g, In g (findall_from re skip s) ->
    exists m, matches re m g /\ occurs m s.
Proof.
  induction s as [|a s IH]; intros skip g.
  - destruct skip; cbn [findall_from]; [|intros []].
    destruct (match_here re EmptyString) as [[g' n]|] eqn:Em; [|intros []].
    intros [<-|[]]. destruct (match_here_matches _ _ _ _ Em)
      as (m & rest & E & _ & Hm).
    exists m. split; [assumption|]. exists EmptyString, rest. exact E.
  - assert (Htail : forall k, In g (findall_from re k s) ->
              exists m, matches re m g /\ occurs m (String a s)).
    { intros k Hk. destruct (IH k g Hk) as (m & Hm & Ho).
      exists m. split; [assumption | now apply occurs_cons]. }
    destruct skip; cbn [findall_from]; [|apply Htail].
    destruct (match_here re (String a s)) as [[g' n]|] eqn:Em;
      [|apply Htail].
    intros [<-|Hin]; [|now apply Htail in Hin].
    destruct (match_here_matches _ _ _ _ Em) as (m & rest & E & _ & Hm).
    exists m. split; [assumption|]. exists EmptyString, rest. exact E.
Qed.

Lemma matches_wikilink (m g : string) :
  matches wikilink_re m g ->
  m = ("[[" +:+ g +:+ "]]")%string
  /\ g <> EmptyString /\ free_of "]" g = true.
Proof.
  unfold wikilink_re. intros H.
  repeat match goal with
         | H : matches (_ :: _) _ _ |- _ => inversion H; clear H; subst
         | H : matches [] _ _ |- _ => inversion H; clear H; subst
         end.
  repeat split; assumption || reflexivity.
Qed.

Lemma matches_link (m g : string) :
  matches link_re m g ->
  (exists url, m = ("[" +:+ g +:+ "](" +:+ url +:+ ")")%string
               /\ url <> EmptyString /\ free_of ")" url = true)
  /\ g <> EmptyString /\ free_of "]" g = true.
Proof.
  unfold link_re. intros H.
  repeat match goal with
         | H : matches (_ :: _) _ _ |- _ => inversion H; clear H; subst
         | H : matches [] _ _ |- _ => inversion H; clear H; subst
         end.
  split; [|split; assumption].
  match goal with
  | Hu : free_of ")" ?u = true |- _ => exists u
  end.
  repeat split; assumption || reflexivity.
Qed.

(** ** Every line occurs in the content it was split from *)

Lemma split_lines_occur (sep : ascii) (s : string) :
  match split sep s with
  | [] => False
  | l0 :: ls =>
      (exists rest, s = l0 +:+ rest) /\ (forall l, In l ls -> occurs l s)
  end.
Proof.
  induction s as [|c s IH]; cbn [split].
  - split; [exists EmptyString; reflexivity | intros l []].
  - destruct (split sep s) as [|l0 ls]; [contradiction|].
    destruct IH as [[rest Hrest] Hls].
    assert (Hall : forall l, In l (l0 :: ls) -> occurs l s).
    { intros l [<-|Hl]; [|now apply Hls].
      exists EmptyString, rest. exact Hrest. }
    destruct (Ascii.eqb c sep).
    + split; [exists (String c s); reflexivity|].
      intros l Hl. now apply occurs_cons, Hall.
    + split.
      * exists rest. norm_append. now rewrite <- Hrest.
      * intros l Hl. now apply occurs_cons, Hls.
Qed.

Lemma line_occurs (sep : ascii) (s l : string) :
  In l (split sep s) -> occurs l s.
Proof.
  pose proof (split_lines_occur sep s) as H.
  destruct (split sep s) as [|l0 ls]; [contradiction|].
  destruct H as [[rest Hrest] Hls].
  intros [<-|Hl]; [|now apply Hls].
  exists EmptyString, rest. exact Hrest.
Qed.

Lemma line_threads_labels (content line t : string) :
  occurs line content -> In t (line_threads line) ->
  (wiki_label content t \/ link_label content t)
  /\ t <> EmptyString /\ free_of "]" t = true.
Proof.
  intros Hline Hin. unfold line_threads, findall in Hin.
  apply in_app_or in Hin. destruct Hin as [Hin|Hin];
    apply findall_from_matches in Hin; destruct Hin as (m & Hm & Ho).
  - apply matches_wikilink in Hm. destruct Hm as (-> & Hne & Hf).
    split; [|split; assumption].
    left. unfold wiki_label. now apply occurs_trans with line.
  - apply matches_link in Hm. destruct Hm as ((url & -> & _) & Hne & Hf).
    split; [|split; assumption].
    right. exists url. now apply occurs_trans with line.
Qed.

Section Analyzer_facts.

Context {hash_order : HashOrder}.

(** On a Python string the analysis raises nothing, and its four fields
    are the following. *)
Lemma analyze_spectral_pattern_ok (content : string) :
  py_str content ->
  let lines := split newline content in
  analyze_spectral_pattern content
  = Ok {| spectral_frequency :=
            spectral_score (heading_count lines) (link_count lines)
                           (tag_count lines) (len lines);
          resonance_threads := list_of_set (flat_map line_threads lines);
          structural_depth := heading_count lines;
          connection_density :=
            PyFloat (div (exact_of_int (link_count lines))
                         (exact_of_int (len lines))) |}.
Proof.
  intros Hs lines. unfold analyze_spectral_pattern. fold lines.
  pose proof (len_lines_bounds content Hs) as HN. fold lines in HN.
  pose proof (len_filter_le is_heading lines) as HH.
  pose proof (len_filter_le has_link lines) as HL.
  pose proof (len_filter_le is_tag lines) as HT.
  fold (heading_count lines) in HH. fold (link_count lines) in HL.
  fold (tag_count lines) in HT.
  destruct (float_of_int_small (tag_count lines)) as (-> & _); [lia|].
  destruct (float_of_int_small (heading_count lines * 2 + link_count lines))
    as (-> & _); [lia|].
  destruct (float_of_int_small (len lines)) as (-> & _); [lia|].
  cbn [bind].
  rewrite float_truediv_pos by (apply float_of_int_pos; lia).
  cbn [bind].
  destruct lines as [|l ls] eqn:El.
  { exfalso. exact (split_not_nil newline content El). }
  rewrite int_truediv_small by lia.
  reflexivity.
Qed.

Lemma list_of_set_nil : list_of_set [] = [].
Proof.
  destruct (list_of_set []) as [|x xs] eqn:E; [reflexivity|].
  exfalso. apply (proj1 (list_of_set_In [] x)). rewrite E. left. reflexivity.
Qed.

Lemma py_str_example : py_str example_content.
Proof. unfold py_str. simpl. lia. Qed.

(** C1 (amended). For every content string, the analysis succeeds and its
    [spectralFrequency] is [(H*2 + L + T*0.5)/N] in Python's arithmetic,
    where [N] is the number of newline-separated lines, [H] the number of
    lines whose first character is [#], [L] the number of lines in which
    [[[] or [](] occurs, and [T] the number of lines that contain a [#]
    and do not start with one: no line counts toward both [H] and [T]. *)
Theorem C1_spectral_frequency_formula (content : string) :
  py_str content ->
  exists a,
    analyze_spectral_pattern content = Ok a
    /\ spectral_frequency a
       = spectral_score (count_lines spec_heading content)
                        (count_lines has_link content)
                        (count_lines is_tag content)
                        (spec_line_count content)
    /\ (forall l, spec_heading l = true <-> char_at "#" 0 l)
    /\ (forall l, has_link l = true <-> occurs "[[" l \/ occurs "](" l)
    /\ (forall l, is_tag l = true
                  <-> (exists i, char_at "#" i l) /\ ~ char_at "#" 0 l)
    /\ (forall l, is_tag l = true -> spec_heading l = false).
Proof.
  intros Hs. eexists. split; [apply analyze_spectral_pattern_ok, Hs|].
  cbn [spectral_frequency]. split.
  - unfold count_lines, heading_count, link_count, tag_count.
    rewrite len_split_newline.
    rewrite (List.filter_ext is_heading spec_heading is_heading_spec).
    reflexivity.
  - split; [exact spec_heading_iff|]. split; [exact has_link_iff|].
    split; [exact is_tag_iff|].
    intros l Hl. rewrite <- is_heading_spec. now apply is_tag_not_heading.
Qed.

(** C2 (amended). The example content has 3 lines, of which 2 start with
    [#] (the first and the third), 1 contains a link marker (the second,
    which holds both [[[] and [](]) and none passes the tag test; so
    [structuralDepth = 2], [connectionDensity = 1/3],
    [spectralFrequency = (2*2 + 1 + 0*0.5)/3 = 1.6666666666666667], and
    [resonanceThreads] is exactly the set of [Concept] and [label]. *)
Theorem C2_example_analysis :
  let lines := split newline example_content in
  exists a,
    analyze_spectral_pattern example_content = Ok a
    /\ len lines = 3
    /\ heading_count lines = 2 /\ link_count lines = 1 /\ tag_count lines = 0
    /\ structural_depth a = 2
    /\ connection_density a
       = PyFloat (div (exact_of_int 1) (exact_of_int 3))
    /\ spectral_frequency a = spectral_score 2 1 0 3
    /\ spectral_frequency a = S754_finite false 7505999378950827 (-52)
    /\ (forall t, In t (resonance_threads a)
                  <-> t = "Concept"%string \/ t = "label"%string)
    /\ List.NoDup (resonance_threads a).
Proof.
  intros lines. eexists.
  split; [apply analyze_spectral_pattern_ok, py_str_example|].
  cbn [spectral_frequency resonance_threads structural_depth
       connection_density].
  repeat (split; [vm_compute; reflexivity|]).
  split; [|apply list_of_set_NoDup].
  intros t. rewrite list_of_set_In.
  change (flat_map line_threads (split newline example_content))
    with ["Concept"%string; "label"%string].
  simpl. intuition congruence.
Qed.

(** C3 (amended). The empty string splits into exactly one line, the
    empty one, so the divisor is 1: the analysis raises nothing and
    returns [spectralFrequency = 0.0], [structuralDepth = 0],
    [connectionDensity = 0.0] and no resonance thread. No content splits
    into zero lines. *)
Theorem C3_empty_content :
  split newline EmptyString = [EmptyString]
  /\ analyze_spectral_pattern EmptyString
     = Ok {| spectral_frequency := zero;
             resonance_threads := [];
             structural_depth := 0;
             connection_density := PyFloat zero |}
  /\ (forall content, len (split newline content) <> 0).
Proof.
  split; [reflexivity|]. split.
  - unfold analyze_spectral_pattern. cbn. rewrite list_of_set_nil.
    reflexivity.
  - intros content. pose proof (length_split newline content).
    unfold len. lia.
Qed.

(** The score of a Python string is zero, a positive number or plus
    infinity: never a NaN. *)
Lemma spectral_score_nonneg (content : string) :
  py_str content ->
  let lines := split newline content in
  nonneg (spectral_score (heading_count lines) (link_count lines)
                         (tag_count lines) (len lines)) = true.
Proof.
  intros Hs lines. unfold spectral_score.
  pose proof (len_lines_bounds content Hs) as HN. fold lines in HN.
  pose proof (len_filter_le is_heading lines) as HH.
  pose proof (len_filter_le has_link lines) as HL.
  pose proof (len_filter_le is_tag lines) as HT.
  fold (heading_count lines) in HH. fold (link_count lines) in HL.
  fold (tag_count lines) in HT.
  destruct (float_of_int_small (tag_count lines)) as (_ & Ht1 & Ht2); [lia|].
  destruct (float_of_int_small (heading_count lines * 2 + link_count lines))
    as (_ & Hm1 & _); [lia|].
  apply div_nonneg; [|apply float_of_int_pos; lia].
  apply add_nonneg; [assumption|].
  apply mul_nonneg; try assumption; reflexivity.
Qed.

(** C4. For every content string, the analysis succeeds, every element
    of its [resonanceThreads] is a label that occurs literally in the
    content, between wiki-link brackets or as the label of an inline
    link, and no element is listed twice. *)
Theorem C4_resonance_threads_labels (content : string) :
  py_str content ->
  exists a,
    analyze_spectral_pattern content = Ok a
    /\ List.NoDup (resonance_threads a)
    /\ (forall t, In t (resonance_threads a) ->
          wiki_label content t \/ link_label content t).
Proof.
  intros Hs. eexists. split; [apply analyze_spectral_pattern_ok, Hs|].
  cbn [resonance_threads]. split; [apply list_of_set_NoDup|].
  intros t Ht. apply list_of_set_In, in_flat_map in Ht.
  destruct Ht as (line & Hline & Ht).
  apply line_occurs in Hline.
  exact (proj1 (line_threads_labels content line t Hline Ht)).
Qed.

End Analyzer_facts.

(** C1 as stated fails on the one-line content [#a#]: the line starts
    with [#] and holds another [#] at position 2, so the claim counts it
    toward both [H] and [T] and predicts 2.5, while the analyzer returns
    2.0. *)
Lemma C1_counterexample :
  let content := "#a#"%string in
  exists a,
    @analyze_spectral_pattern last_seen_order content = Ok a
    /\ spectral_frequency a = of_Z 2
    /\ spectral_score (count_lines spec_heading content)
                      (count_lines has_link content)
                      (count_lines spec_tag content)
                      (spec_line_count content)
       = div (of_Z 5) (of_Z 2)
    /\ spectral_frequency a
       <> spectral_score (count_lines spec_heading content)
                         (count_lines has_link content)
                         (count_lines spec_tag content)
                         (spec_line_count content).
Proof.
  eexists. split; [vm_compute; reflexivity|].
  split; [vm_compute; reflexivity|].
  split; [vm_compute; reflexivity|].
  vm_compute. discriminate.
Qed.

(** C2 as stated fails: on the example content the analyzer counts 2
    headings, 1 link line and 0 tag lines, not 1, 2 and 1, and none of
    the three claimed values comes out. *)
Lemma C2_counterexample :
  let lines := split newline example_content in
  exists a,
    @analyze_spectral_pattern last_seen_order example_content = Ok a
    /\ heading_count lines <> 1 /\ link_count lines <> 2
    /\ tag_count lines <> 1
    /\ structural_depth a <> 1
    /\ connection_density a
       <> PyFloat (div (exact_of_int 2) (exact_of_int 3))
    /\ spectral_frequency a <> spectral_score 1 2 1 3.
Proof.
  eexists. split; [vm_compute; reflexivity|].
  repeat split; vm_compute; discriminate.
Qed.

(** C3 as stated fails: the empty string splits into one line, not zero,
    and its analysis returns a value instead of raising. *)
Lemma C3_counterexample :
  len (split newline EmptyString) = 1
  /\ (exists a, @analyze_spectral_pattern last_seen_order EmptyString = Ok a)
  /\ (forall e, @analyze_spectral_pattern last_seen_order EmptyString
                <> Raise e).
Proof.
  split; [reflexivity|]. split.
  - eexists. vm_compute. reflexivity.
  - intros e. vm_compute. discriminate.
Qed.

(** * The node aligner *)

(** ** The loop *)

Lemma for_each_ok {A B : Type} (f : A -> result B) (xs : list A) :
  Forall (fun x => exists y, f x = Ok y) xs ->
  exists ys, for_each f xs = Ok ys /\ Forall2 (fun x y => f x = Ok y) xs ys.
Proof.
  induction 1 as [|x xs [y Hy] _ (ys & Hys & HF)]; cbn [for_each].
  - exists []. split; [reflexivity | constructor].
  - exists (y :: ys). rewrite Hy, Hys. split; [reflexivity|].
    constructor; assumption.
Qed.

(** ** The sort *)

Section Sorted_reverse_facts.

Context {A : Type} (key : A -> float).

Lemma insert_reverse_Permutation (x : A) (l : list A) :
  Permutation (insert_reverse key x l) (x :: l).
Proof.
  induction l as [|y l IH]; cbn [insert_reverse]; [reflexivity|].
  destruct (ltb (key x) (key y)); [|reflexivity].
  rewrite IH. apply perm_swap.
Qed.

Lemma sorted_reverse_Permutation (l : list A) :
  Permutation (sorted_reverse key l) l.
Proof.
  induction l as [|x l IH]; cbn [sorted_reverse fold_right]; [reflexivity|].
  fold (sorted_reverse key l). rewrite insert_reverse_Permutation.
  now constructor.
Qed.

Lemma insert_reverse_HdRel (x y : A) (l : list A) :
  key_ge key y x -> HdRel (key_ge key) y l -> HdRel (key_ge key) y (insert_reverse key x l).
Proof.
  intros Hyx Hl. destruct l as [|z l]; cbn [insert_reverse].
  - constructor. assumption.
  - destruct (ltb (key x) (key z)); constructor; [|assumption].
    now inversion Hl.
Qed.

Lemma insert_reverse_Sorted (x : A) (l : list A) :
  is_nan (key x) = false -> Forall (fun y => is_nan (key y) = false) l ->
  Sorted.Sorted (key_ge key) l -> Sorted.Sorted (key_ge key) (insert_reverse key x l).
Proof.
  intros Hx Hl Hs. induction Hs as [|y l Hs IH Hd]; cbn [insert_reverse].
  - repeat constructor.
  - inversion Hl as [|? ? Hy Hl']; subst.
    destruct (ltb (key x) (key y)) eqn:E.
    + constructor; [now apply IH|].
      apply insert_reverse_HdRel; [|assumption].
      now apply ltb_leb.
    + constructor; [now constructor|]. constructor.
      now apply ltb_false_leb.
Qed.

Lemma sorted_reverse_Sorted (l : list A) :
  Forall (fun y => is_nan (key y) = false) l ->
  Sorted.Sorted (key_ge key) (sorted_reverse key l).
Proof.
  induction 1 as [|x l Hx Hl IH]; cbn [sorted_reverse fold_right].
  - constructor.
  - fold (sorted_reverse key l). apply insert_reverse_Sorted; try assumption.
    apply List.Forall_forall. intros y Hy. rewrite List.Forall_forall in Hl.
    apply Hl. apply (Permutation_in _ (sorted_reverse_Permutation l) Hy).
Qed.

Lemma Sorted_adjacent (R : A -> A -> Prop) (l : list A) :
  Sorted.Sorted R l ->
  forall (i : nat) a b, l !! i = Some a -> l !! S i = Some b -> R a b.
Proof.
  induction 1 as [|x l Hs IH Hd]; intros i a b Ha Hb.
  - discriminate.
  - destruct i as [|i].
    + cbn in Ha, Hb. injection Ha as <-.
      destruct l as [|y l]; [discriminate|]. cbn in Hb. injection Hb as <-.
      now inversion Hd.
    + exact (IH i a b Ha Hb).
Qed.

(** Stability: the elements whose key equals [k] keep their order. *)
Lemma insert_reverse_stable (k : float) (x : A) (l : list A) :
  List.filter (fun y => eqb (key y) k) (insert_reverse key x l)
  = List.filter (fun y => eqb (key y) k) (x :: l).
Proof.
  induction l as [|y l IH]; cbn [insert_reverse]; [reflexivity|].
  destruct (ltb (key x) (key y)) eqn:E; [|reflexivity].
  cbn [List.filter] in *. rewrite IH.
  destruct (eqb (key x) k) eqn:Ex, (eqb (key y) k) eqn:Ey; try reflexivity.
  rewrite (eqb_eqb_not_ltb _ _ _ Ex Ey) in E. discriminate.
Qed.

Lemma sorted_reverse_stable (k : float) (l : list A) :
  List.filter (fun y => eqb (key y) k) (sorted_reverse key l)
  = List.filter (fun y => eqb (key y) k) l.
Proof.
  induction l as [|x l IH]; cbn [sorted_reverse fold_right]; [reflexivity|].
  fold (sorted_reverse key l). rewrite insert_reverse_stable.
  cbn [List.filter]. now rewrite IH.
Qed.

(** *** The sort is determined by stability and order

    Whatever algorithm [sorted] runs, a stable rearrangement that is in
    non-increasing order of the keys is the one computed here. *)

Lemma key_ge_trans (a b c : A) :
  key_ge key a b -> key_ge key b c -> key_ge key a c.
Proof. unfold key_ge. intros Hab Hbc. exact (leb_trans _ _ _ Hbc Hab). Qed.

Lemma Sorted_head_ge (x y : A) (l : list A) :
  Sorted.Sorted (key_ge key) (x :: l) -> In y l -> key_ge key x y.
Proof.
  intros Hs Hy. apply Sorted_StronglySorted in Hs.
  - inversion Hs as [|? ? _ Hall]; subst.
    rewrite List.Forall_forall in Hall. now apply Hall.
  - intros a b c. apply key_ge_trans.
Qed.

Lemma filter_head_In (k : float) (x : A) (l : list A) :
  eqb (key x) k = true ->
  forall l', List.filter (fun y => eqb (key y) k) (x :: l)
             = List.filter (fun y => eqb (key y) k) l' ->
             In x l'.
Proof.
  intros Hx l' E. cbn [List.filter] in E. rewrite Hx in E.
  apply (proj1 (filter_In (fun y => eqb (key y) k) x l')).
  rewrite <- E. left. reflexivity.
Qed.

Theorem stable_sorted_unique (l1 : list A) :
  forall l2,
    Forall (fun y => is_nan (key y) = false) l1 ->
    Forall (fun y => is_nan (key y) = false) l2 ->
    Sorted.Sorted (key_ge key) l1 -> Sorted.Sorted (key_ge key) l2 ->
    (forall k, List.filter (fun y => eqb (key y) k) l1
               = List.filter (fun y => eqb (key y) k) l2) ->
    l1 = l2.
Proof.
  induction l1 as [|x1 t1 IH]; intros [|x2 t2] H1 H2 S1 S2 HF.
  - reflexivity.
  - exfalso. inversion H2 as [|? ? Hx2 _]; subst.
    specialize (HF (key x2)). cbn [List.filter] in HF.
    rewrite (eqb_refl _ Hx2) in HF. discriminate.
  - exfalso. inversion H1 as [|? ? Hx1 _]; subst.
    specialize (HF (key x1)). cbn [List.filter] in HF.
    rewrite (eqb_refl _ Hx1) in HF. discriminate.
  - inversion H1 as [|? ? Hx1 H1']; inversion H2 as [|? ? Hx2 H2']; subst.
    assert (Hin1 : In x1 (x2 :: t2)).
    { apply (filter_head_In (key x1) x1 t1 (eqb_refl _ Hx1)), HF. }
    assert (Hin2 : In x2 (x1 :: t1)).
    { apply (filter_head_In (key x2) x2 t2 (eqb_refl _ Hx2)).
      symmetry. apply HF. }
    assert (Hge21 : key_ge key x2 x1).
    { destruct Hin1 as [->|Hin1]; [|exact (Sorted_head_ge _ _ _ S2 Hin1)].
      unfold key_ge. apply ltb_false_leb; try assumption.
      apply (eqb_eqb_not_ltb _ _ (key x1)); now apply eqb_refl. }
    assert (Hge12 : key_ge key x1 x2).
    { destruct Hin2 as [->|Hin2]; [|exact (Sorted_head_ge _ _ _ S1 Hin2)].
      unfold key_ge. apply ltb_false_leb; try assumption.
      apply (eqb_eqb_not_ltb _ _ (key x2)); now apply eqb_refl. }
    assert (Heq : eqb (key x2) (key x1) = true)
      by (apply leb_antisym; assumption).
    assert (Hx : x1 = x2).
    { specialize (HF (key x1)). cbn [List.filter] in HF.
      rewrite (eqb_refl _ Hx1), Heq in HF. congruence. }
    subst x2. f_equal.
    apply IH; try assumption.
    + now inversion S1.
    + now inversion S2.
    + intros k. specialize (HF k). cbn [List.filter] in HF.
      destruct (eqb (key x1) k); congruence.
Qed.

(** [sorted_reverse] is the only stable rearrangement in non-increasing
    order. *)
Corollary sorted_reverse_unique (l out : list A) :
  Forall (fun y => is_nan (key y) = false) l ->
  Forall (fun y => is_nan (key y) = false) out ->
  Sorted.Sorted (key_ge key) out ->
  (forall k, List.filter (fun y => eqb (key y) k) out
             = List.filter (fun y => eqb (key y) k) l) ->
  out = sorted_reverse key l.
Proof.
  intros Hl Hout Hs Hst.
  apply stable_sorted_unique; try assumption.
  - apply List.Forall_forall. intros y Hy. rewrite List.Forall_forall in Hl.
    apply Hl. apply (Permutation_in _ (sorted_reverse_Permutation l) Hy).
  - now apply sorted_reverse_Sorted.
  - intros k. rewrite sorted_reverse_stable. apply Hst.
Qed.

End Sorted_reverse_facts.

(** ** Alignment *)

Section Aligner_facts.

Context {hash_order : HashOrder}.

Lemma aligned_node_ok (node : MemoryNode.t) :
  py_str (MemoryNode.content node) ->
  exists n',
    aligned_node node = Ok n'
    /\ same_copied_fields node n'
    /\ analysis_fields node n'
    /\ MemoryNode.harmonization_status n' = "aligned"%string
    /\ is_nan (MemoryNode.spectral_frequency n') = false.
Proof.
  intros Hs. unfold aligned_node.
  rewrite (analyze_spectral_pattern_ok _ Hs). cbn [bind].
  eexists. split; [reflexivity|]. cbn.
  split; [repeat split|]. split.
  - eexists. split; [apply analyze_spectral_pattern_ok, Hs|]. split; reflexivity.
  - split; [reflexivity|].
    apply nonneg_not_nan, spectral_score_nonneg, Hs.
Qed.

(** The aligner on Python strings raises nothing: it returns the aligned
    nodes, built in the order of the input and then sorted. *)
Lemma align_memory_nodes_ok (nodes : list MemoryNode.t) :
  Forall (fun n => py_str (MemoryNode.content n)) nodes ->
  exists aligned,
    for_each aligned_node nodes = Ok aligned
    /\ align_memory_nodes nodes
       = Ok (sorted_reverse MemoryNode.spectral_frequency aligned)
    /\ Forall2 (fun n n' =>
                  aligned_node n = Ok n'
                  /\ same_copied_fields n n' /\ analysis_fields n n'
                  /\ MemoryNode.harmonization_status n' = "aligned"%string
                  /\ is_nan (MemoryNode.spectral_frequency n') = false)
               nodes aligned.
Proof.
  intros Hs. unfold align_memory_nodes.
  induction Hs as [|n nodes Hn Hs (aligned & E & _ & HF)]; cbn [for_each].
  - exists []. split; [reflexivity|]. split; [reflexivity | constructor].
  - destruct (aligned_node_ok n Hn) as (n' & En & H1 & H2 & H3 & H4).
    exists (n' :: aligned). rewrite En, E. cbn [bind].
    split; [reflexivity|]. split; [reflexivity|].
    constructor; [tauto | assumption].
Qed.

Lemma Forall2_Forall_r {X Y : Type} (P : X -> Y -> Prop) (Q : Y -> Prop)
    (xs : list X) (ys : list Y) :
  (forall x y, P x y -> Q y) -> Forall2 P xs ys -> Forall Q ys.
Proof. intros HPQ. induction 1; constructor; eauto. Qed.

Lemma Forall2_impl' {X Y : Type} (P Q : X -> Y -> Prop)
    (xs : list X) (ys : list Y) :
  (forall x y, P x y -> Q x y) -> Forall2 P xs ys -> Forall2 Q xs ys.
Proof. intros HPQ. induction 1; constructor; eauto. Qed.

Lemma Forall2_map_eq {X Y Z : Type} (P : X -> Y -> Prop)
    (f : X -> Z) (g : Y -> Z) (xs : list X) (ys : list Y) :
  (forall x y, P x y -> g y = f x) -> Forall2 P xs ys ->
  List.map g ys = List.map f xs.
Proof.
  intros HP. induction 1 as [|x y xs ys Hxy _ IH]; [reflexivity|].
  cbn [List.map]. rewrite IH. f_equal. now apply HP.
Qed.

(** C5. The aligner succeeds on every sequence of nodes, and in the
    sequence it returns every node has a [spectralFrequency] greater than
    or equal to that of the node right after it. *)
Theorem C5_align_sorted_descending (nodes : list MemoryNode.t) :
  Forall (fun n => py_str (MemoryNode.content n)) nodes ->
  exists out,
    align_memory_nodes nodes = Ok out
    /\ forall (i : nat) a b,
         out !! i = Some a -> out !! S i = Some b ->
         leb (MemoryNode.spectral_frequency b)
             (MemoryNode.spectral_frequency a) = true.
Proof.
  intros Hs. destruct (align_memory_nodes_ok nodes Hs) as (aligned & _ & E & HF).
  eexists. split; [exact E|].
  apply (Sorted_adjacent (key_ge MemoryNode.spectral_frequency)).
  apply sorted_reverse_Sorted.
  apply (Forall2_Forall_r _ _ _ _ (fun n n' H => proj2 (proj2 (proj2 (proj2 H)))) HF).
Qed.

(** C6. The aligner returns as many nodes as it was given, and the ids
    of the returned nodes are, with multiplicities, the ids of the input
    nodes. *)
Theorem C6_align_preserves_ids (nodes : list MemoryNode.t) :
  Forall (fun n => py_str (MemoryNode.content n)) nodes ->
  exists out,
    align_memory_nodes nodes = Ok out
    /\ length out = length nodes
    /\ Permutation (List.map MemoryNode.id out) (List.map MemoryNode.id nodes).
Proof.
  intros Hs. destruct (align_memory_nodes_ok nodes Hs) as (aligned & _ & E & HF).
  eexists. split; [exact E|].
  pose proof (sorted_reverse_Permutation MemoryNode.spectral_frequency aligned)
    as HP.
  split.
  - rewrite (Permutation_length HP).
    rewrite <- (length_map MemoryNode.id aligned),
            <- (length_map MemoryNode.id nodes).
    f_equal. apply (Forall2_map_eq _ _ _ _ _
                      (fun n n' H => proj1 (proj1 (proj2 H))) HF).
  - rewrite (Permutation_map MemoryNode.id HP).
    erewrite (Forall2_map_eq _ MemoryNode.id MemoryNode.id); [reflexivity | | exact HF].
    intros n n' (_ & (Hid & _) & _). exact Hid.
Qed.

(** C7. The aligner builds, for each input node in turn, a node with the
    same id, content, markdownFormat, timestamp and source, whose
    spectralFrequency and resonanceThreads are those of the analysis of
    the content and whose harmonizationStatus is [aligned]; the sequence
    it returns is a rearrangement of these nodes, so every returned node
    has harmonizationStatus [aligned], whatever the input status was. *)
Theorem C7_align_frame (nodes : list MemoryNode.t) :
  Forall (fun n => py_str (MemoryNode.content n)) nodes ->
  exists aligned out,
    align_memory_nodes nodes = Ok out
    /\ Permutation out aligned
    /\ Forall2 (fun n n' =>
                  same_copied_fields n n' /\ analysis_fields n n'
                  /\ MemoryNode.harmonization_status n' = "aligned"%string)
               nodes aligned
    /\ Forall (fun n' =>
                 MemoryNode.harmonization_status n' = "aligned"%string) out.
Proof.
  intros Hs. destruct (align_memory_nodes_ok nodes Hs) as (aligned & _ & E & HF).
  exists aligned. eexists. split; [exact E|].
  pose proof (sorted_reverse_Permutation MemoryNode.spectral_frequency aligned)
    as HP.
  split; [exact HP|]. split.
  - apply (Forall2_impl' _ _ _ _ (fun n n' H =>
      conj (proj1 (proj2 H))
           (conj (proj1 (proj2 (proj2 H)))
                 (proj1 (proj2 (proj2 (proj2 H)))))) HF).
  - apply List.Forall_forall. intros n' Hin.
    apply (Permutation_in _ HP) in Hin.
    pose proof (Forall2_Forall_r _
      (fun n' => MemoryNode.harmonization_status n' = "aligned"%string)
      _ _ (fun n n' H => proj1 (proj2 (proj2 (proj2 H)))) HF) as HA.
    rewrite List.Forall_forall in HA. now apply HA.
Qed.

(** C10. The aligner breaks ties stably: for every frequency [k], the
    returned nodes of frequency [k] stand in the order in which the input
    nodes they were built from stand. *)
Theorem C10_align_stable (nodes : list MemoryNode.t) :
  Forall (fun n => py_str (MemoryNode.content n)) nodes ->
  exists aligned out,
    Forall2 (fun n n' => aligned_node n = Ok n') nodes aligned
    /\ align_memory_nodes nodes = Ok out
    /\ forall k, List.filter (has_frequency k) out
                 = List.filter (has_frequency k) aligned.
Proof.
  intros Hs. destruct (align_memory_nodes_ok nodes Hs) as (aligned & _ & E & HF).
  exists aligned. eexists. split; [|split; [exact E|]].
  - apply (Forall2_impl' _ _ _ _ (fun n n' H => proj1 H) HF).
  - intros k. apply sorted_reverse_stable.
Qed.

End Aligner_facts.

Lemma py_str_two_nodes :
  Forall (fun n => py_str (MemoryNode.content n)) [plain_node; example_node].
Proof. repeat constructor; unfold py_str; simpl; lia. Qed.

(** * The boundary code *)

(** ** The record loop of the synchronization *)

Lemma marley_nodes_from_built (clock : nat -> datetime)
    (records : list airtable_record) :
  forall tick,
    Forall2 built_from (List.filter has_content records)
            (marley_nodes_from clock tick records).
Proof.
  induction records as [|r records IH]; intros tick;
    cbn [marley_nodes_from List.filter]; [constructor|].
  unfold has_content.
  destruct (record_fields r !! "Content"%string) as [content|] eqn:E.
  - constructor; [|apply IH]. unfold built_from. cbn. rewrite E. tauto.
  - apply IH.
Qed.

(** C9. In a synchronization run, the nodes built from the fetched
    records are, in order, one for each record whose fields have a
    [Content] entry, with the id and the content of that record, and none
    for the other records; every node built has harmonizationStatus
    [pending] and source [marley]. *)
Theorem C9_one_pending_node_per_content_record (clock : nat -> datetime)
    (marley_records : list airtable_record) :
  let nodes := marley_nodes clock marley_records in
  Forall2 built_from (List.filter has_content marley_records) nodes
  /\ length nodes = length (List.filter has_content marley_records)
  /\ Forall (fun n => MemoryNode.harmonization_status n = "pending"%string
                      /\ MemoryNode.source n = "marley"%string) nodes.
Proof.
  intros nodes.
  pose proof (marley_nodes_from_built clock marley_records 0) as HF.
  fold (marley_nodes clock marley_records) in HF. fold nodes in HF.
  split; [exact HF|]. split.
  - clear -HF. induction HF; cbn [length]; congruence.
  - apply (Forall2_Forall_r _ _ _ _
             (fun r n H => proj2 (proj2 H)) HF).
Qed.

(** ** Harmonization *)

Section Harmonize_facts.

Context {hash_order : HashOrder}.

(** No exception leaves [harmonize_markdown_content]. *)
Lemma harmonize_never_raises (claude : string -> result message)
    (now_isoformat content target_format : string) :
  exists payload,
    harmonize_markdown_content claude now_isoformat content target_format
    = Ok payload.
Proof.
  unfold harmonize_markdown_content, try_except.
  destruct (bind _ _); eauto.
Qed.

(** C8. Whenever the text-generation collaborator raises, the exception
    is caught: the operation returns the error payload, made of the
    message of the exception and of the input content untouched, and
    raises nothing itself. *)
Theorem C8_harmonize_catches_failure (claude : string -> result message)
    (now_isoformat content target_format : string) (e : exn) :
  claude (harmonization_prompt content target_format) = Raise e ->
  harmonize_markdown_content claude now_isoformat content target_format
  = Ok (Failed (str_exn e) content).
Proof.
  intros He. unfold harmonize_markdown_content. rewrite He. reflexivity.
Qed.

End Harmonize_facts.

(** * The theorems at concrete inputs *)

Lemma py_str_hash_a_hash : py_str "#a#".
Proof. unfold py_str. simpl. lia. Qed.

Lemma C1_witness :
  py_str "#a#"
  /\ exists a,
       @analyze_spectral_pattern last_seen_order "#a#" = Ok a
       /\ spectral_frequency a
          = spectral_score (count_lines spec_heading "#a#")
                           (count_lines has_link "#a#")
                           (count_lines is_tag "#a#")
                           (spec_line_count "#a#")
       /\ (forall l, spec_heading l = true <-> char_at "#" 0 l)
       /\ (forall l, has_link l = true <-> occurs "[[" l \/ occurs "](" l)
       /\ (forall l, is_tag l = true
                     <-> (exists i, char_at "#" i l) /\ ~ char_at "#" 0 l)
       /\ (forall l, is_tag l = true -> spec_heading l = false).
Proof.
  split; [exact py_str_hash_a_hash|].
  apply (@C1_spectral_frequency_formula last_seen_order "#a#").
  unfold py_str. simpl. lia.
Defined.

Lemma C4_witness :
  py_str example_content
  /\ exists a,
       @analyze_spectral_pattern last_seen_order example_content = Ok a
       /\ List.NoDup (resonance_threads a)
       /\ (forall t, In t (resonance_threads a) ->
             wiki_label example_content t \/ link_label example_content t).
Proof.
  split; [exact py_str_example|].
  apply (@C4_resonance_threads_labels last_seen_order example_content).
  unfold py_str. simpl. lia.
Defined.

Lemma C5_witness :
  Forall (fun n => py_str (MemoryNode.content n)) [plain_node; example_node]
  /\ exists out,
       @align_memory_nodes last_seen_order [plain_node; example_node] = Ok out
       /\ forall (i : nat) a b,
            out !! i = Some a -> out !! S i = Some b ->
            leb (MemoryNode.spectral_frequency b)
                (MemoryNode.spectral_frequency a) = true.
Proof.
  split; [exact py_str_two_nodes|].
  apply (@C5_align_sorted_descending last_seen_order
           [plain_node; example_node]).
  repeat constructor; unfold py_str; simpl; lia.
Defined.

Lemma C6_witness :
  Forall (fun n => py_str (MemoryNode.content n)) [plain_node; example_node]
  /\ exists out,
       @align_memory_nodes last_seen_order [plain_node; example_node] = Ok out
       /\ length out = 2%nat
       /\ Permutation (List.map MemoryNode.id out) ["rec1"; "rec2"]%string.
Proof.
  split; [exact py_str_two_nodes|].
  apply (@C6_align_preserves_ids last_seen_order [plain_node; example_node]).
  repeat constructor; unfold py_str; simpl; lia.
Defined.

Lemma C7_witness :
  Forall (fun n => py_str (MemoryNode.content n)) [plain_node; example_node]
  /\ exists aligned out,
       @align_memory_nodes last_seen_order [plain_node; example_node] = Ok out
       /\ Permutation out aligned
       /\ Forall2 (fun n n' =>
                     same_copied_fields n n'
                     /\ @analysis_fields last_seen_order n n'
                     /\ MemoryNode.harmonization_status n' = "aligned"%string)
                  [plain_node; example_node] aligned
       /\ Forall (fun n' =>
                    MemoryNode.harmonization_status n' = "aligned"%string)
                 out.
Proof.
  split; [exact py_str_two_nodes|].
  apply (@C7_align_frame last_seen_order [plain_node; example_node]).
  repeat constructor; unfold py_str; simpl; lia.
Defined.

Lemma C8_witness :
  failing_claude (harmonization_prompt "# Title" "obsidian")
  = Raise (Exception "APIConnectionError" "Connection error.")
  /\ @harmonize_markdown_content last_seen_order failing_claude
       "2024-01-01T00:00:00" "# Title" "obsidian"
     = Ok (Failed "Connection error." "# Title").
Proof.
  split; [reflexivity|].
  apply (@C8_harmonize_catches_failure last_seen_order failing_claude
           "2024-01-01T00:00:00" "# Title" "obsidian"
           (Exception "APIConnectionError" "Connection error.")).
  reflexivity.
Defined.

Lemma C10_witness :
  Forall (fun n => py_str (MemoryNode.content n))
         [plain_node; example_node; plain_node]
  /\ exists aligned out,
       Forall2 (fun n n' => @aligned_node last_seen_order n = Ok n')
               [plain_node; example_node; plain_node] aligned
       /\ @align_memory_nodes last_seen_order
            [plain_node; example_node; plain_node] = Ok out
       /\ forall k, List.filter (has_frequency k) out
                    = List.filter (has_frequency k) aligned.
Proof.
  assert (H : Forall (fun n => py_str (MemoryNode.content n))
                     [plain_node; example_node; plain_node])
    by (repeat constructor; unfold py_str; simpl; lia).
  split; [exact H|].
  apply (@C10_align_stable last_seen_order
           [plain_node; example_node; plain_node]).
  repeat constructor; unfold py_str; simpl; lia.
Defined.

(** * More on the structural analyzer *)

Open Scope Z_scope.

(** ** Characters absent from a text *)

Lemma free_of_append (c : ascii) (a b : string) :
  free_of c (a +:+ b) = free_of c a && free_of c b.
Proof.
  induction a as [|x a IH]; norm_append; cbn [free_of]; [reflexivity|].
  rewrite IH. now rewrite andb_assoc.
Qed.

Lemma free_of_occurs (c : ascii) (sub s : string) :
  occurs sub s -> free_of c s = true -> free_of c sub = true.
Proof.
  intros (pre & post & ->). rewrite !free_of_append, !andb_true_iff. tauto.
Qed.

Lemma free_of_head (c : ascii) (x s : string) :
  occurs (String c x) s -> free_of c s = false.
Proof.
  intros Ho. destruct (free_of c s) eqn:E; [|reflexivity].
  pose proof (free_of_occurs c _ _ Ho E) as H. cbn [free_of] in H.
  rewrite Ascii.eqb_refl in H. discriminate.
Qed.

Lemma free_of_not_contains (c : ascii) (sub s : string) :
  free_of c s = true -> contains (String c sub) s = false.
Proof.
  intros Hf. destruct (contains (String c sub) s) eqn:E; [|reflexivity].
  apply contains_iff in E. now rewrite (free_of_head c sub s E) in Hf.
Qed.

(** ** Splitting and joining *)

Lemma join_split (sep : ascii) (s : string) :
  join (String sep EmptyString) (split sep s) = s.
Proof.
  induction s as [|c s IH]; [reflexivity|]. cbn [split].
  pose proof (split_not_nil sep s) as Hne.
  destruct (Ascii.eqb c sep) eqn:Ec.
  - apply Ascii.eqb_eq in Ec. subst c.
    destruct (split sep s) as [|l ls]; [contradiction|].
    cbn [join] in *. norm_append. now rewrite IH.
  - destruct (split sep s) as [|l ls]; [contradiction|].
    cbn [join] in *. destruct ls; norm_append; now rewrite IH.
Qed.

Lemma split_free_of (sep : ascii) (s : string) :
  Forall (fun l => free_of sep l = true) (split sep s).
Proof.
  induction s as [|c s IH]; cbn [split].
  - repeat constructor.
  - destruct (Ascii.eqb c sep) eqn:Ec; [constructor; [reflexivity | exact IH]|].
    destruct (split sep s) as [|l ls]; [repeat constructor; cbn; now rewrite Ec|].
    inversion IH; subst. constructor; [|assumption].
    cbn [free_of]. rewrite Ec. assumption.
Qed.

(** ** What the matcher finds at a link *)

Lemma match_run_exact {R : Type} (c : ascii) (k : string -> option R)
    (run rest : string) (r : R) :
  run <> EmptyString -> free_of c run = true ->
  k (String c rest) = Some r ->
  match_run c k (run +:+ String c rest) = Some (run, r).
Proof.
  intros Hne Hf Hk. induction run as [|a run IH]; [congruence|].
  cbn [free_of] in Hf. apply andb_true_iff in Hf. destruct Hf as [Ha Hf].
  apply negb_true_iff in Ha. norm_append. cbn [match_run]. rewrite Ha.
  destruct run as [|b run].
  - norm_append. cbn [match_run]. rewrite Ascii.eqb_refl, Hk. reflexivity.
  - rewrite IH by (discriminate || assumption). reflexivity.
Qed.

Lemma match_here_wikilink (g post : string) :
  g <> EmptyString -> free_of "]" g = true ->
  match_here wikilink_re ("[[" +:+ g +:+ "]]" +:+ post)%string
  = Some (g, (String.length g + 4)%nat).
Proof.
  intros Hne Hf. unfold wikilink_re. norm_append.
  cbn [match_here Ascii.eqb Bool.eqb].
  rewrite (match_run_exact "]" _ g ("]" +:+ post)%string
             (EmptyString, 2%nat)) by (assumption || reflexivity).
  do 2 f_equal. lia.
Qed.

Lemma match_here_link (g url post : string) :
  g <> EmptyString -> free_of "]" g = true ->
  url <> EmptyString -> free_of ")" url = true ->
  match_here link_re ("[" +:+ g +:+ "](" +:+ url +:+ ")" +:+ post)%string
  = Some (g, (String.length g + String.length url + 4)%nat).
Proof.
  intros Hne Hf Hune Huf. unfold link_re. norm_append.
  cbn [match_here Ascii.eqb Bool.eqb].
  rewrite (match_run_exact "]" _ g ("(" +:+ url +:+ ")" +:+ post)%string
             (EmptyString, (String.length url + 3)%nat));
    [do 2 f_equal; lia | assumption | assumption |].
  norm_append. cbn [match_here Ascii.eqb Bool.eqb].
  rewrite (match_run_exact ")" _ url post (EmptyString, 1%nat))
    by (assumption || reflexivity).
  do 2 f_equal. lia.
Qed.

(** Passing over the characters of a match. *)
Lemma findall_from_skip (re : regex) (m s : string) :
  findall_from re (String.length m) (m +:+ s) = findall_from re 0 s.
Proof.
  induction m as [|a m IH]; norm_append; [reflexivity|].
  cbn [String.length findall_from]. exact IH.
Qed.

(** No match starts where the first literal of the pattern is absent. *)
Lemma findall_from_no_start (c : ascii) (re : regex) (pre s : string) :
  free_of c pre = true ->
  findall_from (Lit c :: re) 0 (pre +:+ s) = findall_from (Lit c :: re) 0 s.
Proof.
  induction pre as [|a pre IH]; intros Hf; norm_append; [reflexivity|].
  cbn [free_of] in Hf. apply andb_true_iff in Hf. destruct Hf as [Ha Hf].
  apply negb_true_iff in Ha.
  cbn [findall_from match_here]. rewrite Ha. now apply IH.
Qed.

Lemma findall_from_match (re : regex) (a : ascii) (s g : string) (n : nat) :
  match_here re (String a s) = Some (g, n) ->
  findall_from re 0 (String a s) = g :: findall_from re (Nat.pred n) s.
Proof. intros H. cbn [findall_from]. now rewrite H. Qed.

Lemma findall_wikilink (pre g post : string) :
  free_of "[" pre = true -> g <> EmptyString -> free_of "]" g = true ->
  findall wikilink_re (pre +:+ "[[" +:+ g +:+ "]]" +:+ post)%string
  = g :: findall wikilink_re post.
Proof.
  intros Hp Hne Hf. unfold findall.
  unfold wikilink_re at 1. rewrite findall_from_no_start by assumption.
  fold wikilink_re.
  pose proof (match_here_wikilink g post Hne Hf) as Hm.
  rewrite !append_cons, append_nil_l in *.
  rewrite (findall_from_match _ _ _ _ _ Hm). f_equal.
  replace (Nat.pred (String.length g + 4))
    with (String.length (String "[" g +:+ "]]")%string)
    by (rewrite length_append; simpl; lia).
  rewrite <- (findall_from_skip wikilink_re (String "[" g +:+ "]]")%string post).
  f_equal. rewrite append_assoc. reflexivity.
Qed.

Lemma findall_link (pre g url post : string) :
  free_of "[" pre = true -> g <> EmptyString -> free_of "]" g = true ->
  url <> EmptyString -> free_of ")" url = true ->
  findall link_re (pre +:+ "[" +:+ g +:+ "](" +:+ url +:+ ")" +:+ post)%string
  = g :: findall link_re post.
Proof.
  intros Hp Hne Hf Hune Huf. unfold findall.
  unfold link_re at 1. rewrite findall_from_no_start by assumption.
  fold link_re.
  pose proof (match_here_link g url post Hne Hf Hune Huf) as Hm.
  rewrite !append_cons, append_nil_l in *.
  rewrite (findall_from_match _ _ _ _ _ Hm). f_equal.
  replace (Nat.pred (String.length g + String.length url + 4))
    with (String.length (g +:+ "](" +:+ url +:+ ")")%string)
    by (rewrite !length_append; simpl; lia).
  rewrite <- (findall_from_skip link_re (g +:+ "](" +:+ url +:+ ")")%string post).
  f_equal. now rewrite !append_assoc.
Qed.

(** ** Counting lines *)

Lemma filter_none {A : Type} (p : A -> bool) (l : list A) :
  (forall x, In x l -> p x = false) -> List.filter p l = [].
Proof.
  induction l as [|x l IH]; intros H; cbn [List.filter]; [reflexivity|].
  rewrite (H x) by (left; reflexivity). apply IH.
  intros y Hy. apply H. now right.
Qed.

Lemma len_filter_disjoint {A : Type} (p q : A -> bool) (l : list A) :
  (forall x, q x = true -> p x = false) ->
  len (List.filter p l) + len (List.filter q l) <= len l.
Proof.
  intros Hd. unfold len. induction l as [|x l IH]; cbn [List.filter length]; [lia|].
  destruct (q x) eqn:Eq.
  - rewrite (Hd x Eq). cbn [length]. lia.
  - destruct (p x); cbn [length]; lia.
Qed.

Lemma line_free_of (c : ascii) (content line : string) :
  free_of c content = true -> In line (split newline content) ->
  free_of c line = true.
Proof.
  intros Hf Hl. apply line_occurs in Hl. exact (free_of_occurs c _ _ Hl Hf).
Qed.

Lemma line_threads_occur (line t : string) :
  In t (line_threads line) ->
  occurs (String "[" t) line /\ t <> EmptyString /\ free_of "]" t = true.
Proof.
  intros Hin. unfold line_threads, findall in Hin.
  apply in_app_or in Hin. destruct Hin as [Hin|Hin];
    apply findall_from_matches in Hin; destruct Hin as (m & Hm & Ho).
  - apply matches_wikilink in Hm. destruct Hm as (-> & Hne & Hf).
    split; [|split; assumption].
    apply occurs_trans with ("[[" +:+ t +:+ "]]")%string; [|assumption].
    exists "["%string, "]]"%string. reflexivity.
  - apply matches_link in Hm. destruct Hm as ((url & -> & _) & Hne & Hf).
    split; [|split; assumption].
    apply occurs_trans with ("[" +:+ t +:+ "](" +:+ url +:+ ")")%string;
      [|assumption].
    exists EmptyString, ("](" +:+ url +:+ ")")%string. reflexivity.
Qed.

Lemma occurs_tail (c : ascii) (t s : string) :
  occurs (String c t) s -> occurs t s.
Proof.
  intros Ho. apply occurs_trans with (String c t); [|assumption].
  exists (String c EmptyString), EmptyString.
  norm_append. now rewrite append_nil_r.
Qed.

Section Analyzer_more.

Context {hash_order : HashOrder}.

(** X1. Joining the lines of a content with newlines gives the content
    back, and no line holds a newline. *)
Theorem X1_split_join_roundtrip (content : string) :
  join (String newline EmptyString) (split newline content) = content
  /\ Forall (fun l => free_of newline l = true) (split newline content).
Proof. split; [apply join_split | apply split_free_of]. Qed.

(** X2. Every resonance thread returned by the analysis is a non-empty
    text without a closing bracket and without a newline. *)
Theorem X2_threads_shape (content : string) :
  py_str content ->
  exists a,
    analyze_spectral_pattern content = Ok a
    /\ forall t, In t (resonance_threads a) ->
         t <> EmptyString /\ free_of "]" t = true
         /\ free_of newline t = true.
Proof.
  intros Hs. eexists. split; [apply analyze_spectral_pattern_ok, Hs|].
  cbn [resonance_threads]. intros t Ht.
  apply list_of_set_In, in_flat_map in Ht. destruct Ht as (line & Hline & Ht).
  destruct (line_threads_occur line t Ht) as (Ho & Hne & Hf).
  split; [assumption|]. split; [assumption|].
  apply (free_of_occurs newline t line); [now apply occurs_tail in Ho|].
  pose proof (split_free_of newline content) as Hall.
  rewrite List.Forall_forall in Hall. now apply Hall.
Qed.

Lemma no_bracket_no_thread (content : string) :
  free_of "[" content = true ->
  list_of_set (flat_map line_threads (split newline content)) = [].
Proof.
  intros Hf.
  destruct (list_of_set _) as [|t ts] eqn:E; [reflexivity|]. exfalso.
  assert (Ht : In t (list_of_set
                       (flat_map line_threads (split newline content))))
    by (rewrite E; left; reflexivity).
  apply list_of_set_In, in_flat_map in Ht. destruct Ht as (line & Hline & Ht).
  destruct (line_threads_occur line t Ht) as (Ho & _).
  pose proof (line_free_of "[" content line Hf Hline) as Hl.
  rewrite (free_of_head "[" t line Ho) in Hl. discriminate.
Qed.

(** X3. A content without any opening bracket has no resonance thread,
    whatever else it holds. *)
Theorem X3_no_bracket_no_thread (content : string) :
  py_str content -> free_of "[" content = true ->
  exists a,
    analyze_spectral_pattern content = Ok a /\ resonance_threads a = [].
Proof.
  intros Hs Hf. eexists. split; [apply analyze_spectral_pattern_ok, Hs|].
  cbn [resonance_threads]. now apply no_bracket_no_thread.
Qed.

(** X4. A wiki link [[[g]]] on a line is extracted as the thread [g],
    as soon as no opening bracket stands before it on the line and [g]
    is a non-empty text without a closing bracket. *)
Theorem X4_wikilink_extracted (content pre g post : string) :
  py_str content ->
  In (pre +:+ "[[" +:+ g +:+ "]]" +:+ post)%string (split newline content) ->
  free_of "[" pre = true -> g <> EmptyString -> free_of "]" g = true ->
  exists a,
    analyze_spectral_pattern content = Ok a /\ In g (resonance_threads a).
Proof.
  intros Hs Hline Hp Hne Hf. eexists.
  split; [apply analyze_spectral_pattern_ok, Hs|].
  cbn [resonance_threads]. apply list_of_set_In, in_flat_map.
  eexists. split; [exact Hline|]. unfold line_threads.
  apply in_or_app. left. rewrite findall_wikilink by assumption.
  left. reflexivity.
Qed.

(** X5. An inline link [[g](url)] on a line is extracted as the thread
    [g], as soon as no opening bracket stands before it on the line, [g]
    is a non-empty text without a closing bracket and [url] a non-empty
    text without a closing parenthesis. *)
Theorem X5_inline_link_extracted (content pre g url post : string) :
  py_str content ->
  In (pre +:+ "[" +:+ g +:+ "](" +:+ url +:+ ")" +:+ post)%string
     (split newline content) ->
  free_of "[" pre = true -> g <> EmptyString -> free_of "]" g = true ->
  url <> EmptyString -> free_of ")" url = true ->
  exists a,
    analyze_spectral_pattern content = Ok a /\ In g (resonance_threads a).
Proof.
  intros Hs Hline Hp Hne Hf Hune Huf. eexists.
  split; [apply analyze_spectral_pattern_ok, Hs|].
  cbn [resonance_threads]. apply list_of_set_In, in_flat_map.
  eexists. split; [exact Hline|]. unfold line_threads.
  apply in_or_app. right. rewrite findall_link by assumption.
  left. reflexivity.
Qed.

(** X6. A content that holds none of the characters [#], [[] and []]
    scores nothing: the frequency is 0.0, the depth 0, the density 0.0,
    and there is no thread. *)
Theorem X6_plain_text_scores_zero (content : string) :
  py_str content ->
  free_of "#" content = true -> free_of "[" content = true ->
  free_of "]" content = true ->
  analyze_spectral_pattern content
  = Ok {| spectral_frequency := zero;
          resonance_threads := [];
          structural_depth := 0;
          connection_density := PyFloat zero |}.
Proof.
  intros Hs Hh Ho Hc.
  rewrite (analyze_spectral_pattern_ok content Hs),
          (no_bracket_no_thread content Ho).
  set (lines := split newline content).
  assert (HH : heading_count lines = 0).
  { unfold heading_count. rewrite filter_none; [reflexivity|].
    intros l Hl. unfold is_heading, startswith.
    destruct (String.prefix "#" l) eqn:E; [|reflexivity].
    apply prefix_iff in E. destruct E as [post ->].
    pose proof (line_free_of "#" content _ Hh Hl) as Hf.
    rewrite append_cons in Hf. cbn [free_of] in Hf.
    rewrite Ascii.eqb_refl in Hf. discriminate. }
  assert (HL : link_count lines = 0).
  { unfold link_count. rewrite filter_none; [reflexivity|].
    intros l Hl. unfold has_link.
    rewrite (free_of_not_contains "[" "[" l (line_free_of _ _ _ Ho Hl)).
    rewrite (free_of_not_contains "]" "(" l (line_free_of _ _ _ Hc Hl)).
    reflexivity. }
  assert (HT : tag_count lines = 0).
  { unfold tag_count. rewrite filter_none; [reflexivity|].
    intros l Hl. unfold is_tag.
    rewrite (free_of_not_contains "#" EmptyString l
               (line_free_of _ _ _ Hh Hl)).
    reflexivity. }
  rewrite HH, HL, HT.
  pose proof (len_lines_bounds content Hs) as HN. fold lines in HN.
  pose proof (float_of_int_pos (len lines) ltac:(lia)) as Hpos.
  unfold spectral_score. cbn [Z.mul Z.add].
  change (add (of_Z 0) (mul (of_Z 0) half)) with zero.
  assert (Hpos' : exists p, len lines = Zpos p)
    by (destruct (len lines) as [|p|p]; try lia; eauto).
  destruct Hpos' as [p Hp]. rewrite Hp. cbn [exact_of_int].
  destruct (of_Z (len lines)) as [[]|[]| |[] m e] eqn:E;
    try discriminate. rewrite <- Hp, E. reflexivity.
Qed.

(** X7. The analyzer never counts a line both as a heading and as a tag
    line: the depth plus the number of tag lines is at most the number
    of lines, as is the number of link lines, so that the numerator
    [H*2 + L + T*0.5] of the frequency is at most three times the number
    of lines. *)
Theorem X7_counts_bounded (content : string) :
  py_str content ->
  exists a,
    analyze_spectral_pattern content = Ok a
    /\ 0 <= structural_depth a
    /\ structural_depth a + count_lines is_tag content
       <= spec_line_count content
    /\ 0 <= count_lines has_link content <= spec_line_count content
    /\ 2 * (structural_depth a * 2 + count_lines has_link content)
       + count_lines is_tag content
       <= 6 * spec_line_count content.
Proof.
  intros Hs. eexists. split; [apply analyze_spectral_pattern_ok, Hs|].
  cbn [structural_depth]. unfold count_lines.
  rewrite <- len_split_newline.
  set (lines := split newline content).
  pose proof (len_filter_disjoint is_heading is_tag lines is_tag_not_heading).
  pose proof (len_filter_le is_heading lines).
  pose proof (len_filter_le has_link lines).
  pose proof (len_filter_le is_tag lines).
  unfold heading_count. lia.
Qed.

End Analyzer_more.

(** * More on the node aligner *)

(** ** What a successful analysis returns *)

Lemma float_of_int_Ok (z : Z) (f : float) :
  float_of_int z = Ok f -> f = of_Z z /\ is_infinite f = false.
Proof.
  unfold float_of_int. destruct (is_infinite (of_Z z)) eqn:E; [discriminate|].
  intros [= <-]. split; [reflexivity | assumption].
Qed.

Lemma of_Z_nonneg (z : Z) : 0 <= z -> nonneg (of_Z z) = true.
Proof.
  intros Hz. destruct z as [|p|p]; try lia; [reflexivity|].
  apply binary_round_nonneg.
Qed.

Lemma float_truediv_Ok (x n q : float) :
  float_truediv x n = Ok q -> eqb n zero = false /\ q = div x n.
Proof.
  unfold float_truediv. destruct (eqb n zero); [discriminate|].
  intros [= <-]. split; reflexivity.
Qed.

Lemma len_nonneg {A : Type} (l : list A) : 0 <= len l.
Proof. unfold len. lia. Qed.

Section Analysis_result.

Context {hash_order : HashOrder}.

(** Whenever the analysis returns, the frequency is zero, a positive
    number or plus infinity: never a NaN, on contents of any length. *)
Lemma analyze_Ok_nonneg (content : string) (a : spectral_data) :
  analyze_spectral_pattern content = Ok a ->
  nonneg (spectral_frequency a) = true.
Proof.
  unfold analyze_spectral_pattern.
  set (lines := split newline content).
  pose proof (len_filter_le is_heading lines) as HH.
  pose proof (len_filter_le has_link lines) as HL.
  pose proof (len_filter_le is_tag lines) as HT.
  fold (heading_count lines) in HH. fold (link_count lines) in HL.
  fold (tag_count lines) in HT.
  destruct (float_of_int (tag_count lines)) as [tags|] eqn:Et; [|discriminate].
  destruct (float_of_int (heading_count lines * 2 + link_count lines))
    as [marks|] eqn:Em; [|discriminate].
  destruct (float_of_int (len lines)) as [n|] eqn:En; [|discriminate].
  cbn [bind].
  destruct (float_truediv (add marks (mul tags half)) n) as [q|] eqn:Eq;
    [|discriminate].
  cbn [bind].
  apply float_of_int_Ok in Et, Em, En.
  destruct Et as [-> Ht], Em as [-> Hm], En as [-> Hn].
  apply float_truediv_Ok in Eq. destruct Eq as [Hz ->].
  assert (Hq : nonneg (div (add (of_Z (heading_count lines * 2 + link_count lines))
                               (mul (of_Z (tag_count lines)) half))
                          (of_Z (len lines))) = true).
  { apply div_nonneg.
    - apply add_nonneg; [apply of_Z_nonneg; lia|].
      apply mul_nonneg; try assumption; try reflexivity.
      apply of_Z_nonneg; lia.
    - pose proof (of_Z_nonneg (len lines) (len_nonneg lines)) as Hnn.
      unfold eqb, SFeqb in Hz.
      destruct (of_Z (len lines)) as [[]|[]| |[] m e];
        simpl in *; congruence. }
  destruct (match lines with [] => _ | _ :: _ => _ end); [|discriminate].
  cbn [bind]. intros [= <-]. exact Hq.
Qed.

Lemma aligned_node_Ok (n n' : MemoryNode.t) :
  aligned_node n = Ok n' ->
  exists a,
    analyze_spectral_pattern (MemoryNode.content n) = Ok a
    /\ n' = MemoryNode.mk (MemoryNode.id n) (MemoryNode.content n)
              (MemoryNode.markdown_format n) (spectral_frequency a)
              (resonance_threads a) (MemoryNode.timestamp n)
              (MemoryNode.source n) "aligned".
Proof.
  unfold aligned_node.
  destruct (analyze_spectral_pattern (MemoryNode.content n)) as [a|];
    [|discriminate].
  cbn [bind]. intros [= <-]. exists a. split; reflexivity.
Qed.

(** An aligned node is left as it is by a second alignment. *)
Lemma aligned_node_fixed (n n' : MemoryNode.t) :
  aligned_node n = Ok n' -> aligned_node n' = Ok n'.
Proof.
  intros H. destruct (aligned_node_Ok n n' H) as (a & Ea & ->).
  unfold aligned_node. cbn [MemoryNode.content]. rewrite Ea. reflexivity.
Qed.

Lemma for_each_Ok {A B : Type} (f : A -> result B) (xs : list A) :
  forall ys, for_each f xs = Ok ys -> Forall2 (fun x y => f x = Ok y) xs ys.
Proof.
  induction xs as [|x xs IH]; intros ys; cbn [for_each].
  - intros [= <-]. constructor.
  - destruct (f x) as [y|] eqn:Ey; [|discriminate]. cbn [bind].
    destruct (for_each f xs) as [ys'|]; [|discriminate]. cbn [bind].
    intros [= <-]. constructor; [assumption | now apply IH].
Qed.

Lemma for_each_fixed {A : Type} (f : A -> result A) (xs : list A) :
  Forall (fun x => f x = Ok x) xs -> for_each f xs = Ok xs.
Proof.
  induction 1 as [|x xs Hx _ IH]; cbn [for_each]; [reflexivity|].
  now rewrite Hx, IH.
Qed.

Lemma align_memory_nodes_Ok (nodes out : list MemoryNode.t) :
  align_memory_nodes nodes = Ok out ->
  exists aligned,
    Forall2 (fun n n' => aligned_node n = Ok n') nodes aligned
    /\ out = sorted_reverse MemoryNode.spectral_frequency aligned
    /\ Forall (fun n' => is_nan (MemoryNode.spectral_frequency n') = false)
              aligned.
Proof.
  unfold align_memory_nodes.
  destruct (for_each aligned_node nodes) as [aligned|] eqn:E; [|discriminate].
  cbn [bind]. intros [= <-]. exists aligned.
  apply for_each_Ok in E. split; [assumption|]. split; [reflexivity|].
  clear -E. induction E as [|n n' ns ns' Hn _ IH]; constructor; [|exact IH].
  destruct (aligned_node_Ok n n' Hn) as (a & Ea & ->).
  cbn. apply nonneg_not_nan. exact (analyze_Ok_nonneg _ _ Ea).
Qed.

End Analysis_result.

(** ** Order of the output, over all pairs *)

Lemma StronglySorted_lookup {A : Type} (R : A -> A -> Prop) (l : list A) :
  StronglySorted R l ->
  forall (i j : nat) a b,
    (i < j)%nat -> l !! i = Some a -> l !! j = Some b -> R a b.
Proof.
  induction 1 as [|x l Hs IH Hall]; intros i j a b Hij Ha Hb.
  - discriminate.
  - destruct j as [|j]; [lia|]. destruct i as [|i].
    + cbn in Ha, Hb. injection Ha as <-.
      rewrite List.Forall_forall in Hall. apply Hall.
      apply list_elem_of_In. apply list_elem_of_lookup. eauto.
    + cbn in Ha, Hb. apply (IH i j a b); [lia | assumption | assumption].
Qed.

Lemma aligned_node_ext {hash_order : HashOrder} (n m : MemoryNode.t) :
  same_copied_fields n m -> aligned_node m = aligned_node n.
Proof.
  intros (Hid & Hc & Hf & Ht & Hs). unfold aligned_node.
  now rewrite Hid, Hc, Hf, Ht, Hs.
Qed.

Section Aligner_more.

Context {hash_order : HashOrder}.

(** X8. Alignment is idempotent: aligning the sequence returned by the
    aligner returns that very sequence. *)
Theorem X8_align_idempotent (nodes out : list MemoryNode.t) :
  align_memory_nodes nodes = Ok out -> align_memory_nodes out = Ok out.
Proof.
  intros H. destruct (align_memory_nodes_Ok nodes out H)
    as (aligned & HF & -> & Hnan).
  set (out := sorted_reverse MemoryNode.spectral_frequency aligned).
  pose proof (sorted_reverse_Permutation MemoryNode.spectral_frequency aligned)
    as HP. fold out in HP.
  assert (Hfix : Forall (fun n' => aligned_node n' = Ok n') out).
  { apply List.Forall_forall. intros n' Hin.
    apply (Permutation_in _ HP) in Hin.
    clear -HF Hin. induction HF as [|n m ns ms Hn _ IH]; [destruct Hin|].
    destruct Hin as [<-|Hin]; [exact (aligned_node_fixed n m Hn) | now apply IH]. }
  assert (Hnan' : Forall (fun n' => is_nan (MemoryNode.spectral_frequency n')
                                    = false) out).
  { apply List.Forall_forall. intros n' Hin.
    apply (Permutation_in _ HP) in Hin.
    rewrite List.Forall_forall in Hnan. now apply Hnan. }
  unfold align_memory_nodes. rewrite (for_each_fixed _ _ Hfix). cbn [bind].
  f_equal. symmetry. apply sorted_reverse_unique; try assumption.
  - now apply sorted_reverse_Sorted.
  - reflexivity.
Qed.

(** X9. The aligner reads only the id, content, markdownFormat, timestamp
    and source of its input: two sequences of nodes that agree on these
    fields, whatever their frequencies, threads and statuses, are aligned
    to the same result. *)
Theorem X9_align_ignores_derived_fields (nodes1 nodes2 : list MemoryNode.t) :
  Forall2 same_copied_fields nodes1 nodes2 ->
  align_memory_nodes nodes2 = align_memory_nodes nodes1.
Proof.
  intros HF. unfold align_memory_nodes. f_equal.
  induction HF as [|n m ns ms Hnm _ IH]; cbn [for_each]; [reflexivity|].
  now rewrite (aligned_node_ext n m Hnm), IH.
Qed.

(** X10. In the sequence returned by the aligner, every node has a
    frequency greater than or equal to that of every node after it, not
    only of the next one; in particular the first node has the greatest
    frequency. *)
Theorem X10_align_sorted_all_pairs (nodes out : list MemoryNode.t) :
  align_memory_nodes nodes = Ok out ->
  forall (i j : nat) a b,
    (i < j)%nat -> out !! i = Some a -> out !! j = Some b ->
    leb (MemoryNode.spectral_frequency b)
        (MemoryNode.spectral_frequency a) = true.
Proof.
  intros H. destruct (align_memory_nodes_Ok nodes out H)
    as (aligned & _ & -> & Hnan).
  apply (StronglySorted_lookup (key_ge MemoryNode.spectral_frequency)).
  apply Sorted_StronglySorted.
  - intros a b c. apply key_ge_trans.
  - now apply sorted_reverse_Sorted.
Qed.

End Aligner_more.

(** * The synchronization run and the cache *)

(** ** Dictionaries *)

Section PyDict_facts.

Context {V : Type}.

Lemma dict_get_set_eq (k : string) (v : V) (d : pydict V) :
  dict_get k (dict_set k v d) = Some v.
Proof.
  induction d as [|[k' v'] d IH]; cbn [dict_set dict_get].
  - now rewrite String.eqb_refl.
  - destruct (String.eqb k' k) eqn:E; cbn [dict_get]; now rewrite E.
Qed.

Lemma dict_get_set_ne (k k' : string) (v : V) (d : pydict V) :
  k <> k' -> dict_get k' (dict_set k v d) = dict_get k' d.
Proof.
  intros Hne. induction d as [|[k0 v0] d IH]; cbn [dict_set dict_get].
  - replace (String.eqb k k') with false; [reflexivity|].
    symmetry. now apply String.eqb_neq.
  - destruct (String.eqb k0 k) eqn:E; cbn [dict_get].
    + apply String.eqb_eq in E. subst k0.
      replace (String.eqb k k') with false; [reflexivity|].
      symmetry. now apply String.eqb_neq.
    + now rewrite IH.
Qed.

Lemma dict_get_In_keys (k : string) (d : pydict V) :
  In k (dict_keys d) <-> exists v, dict_get k d = Some v.
Proof.
  induction d as [|[k' v'] d IH]; cbn [dict_keys List.map dict_get fst].
  - split; [intros [] | intros [v H]; discriminate].
  - destruct (String.eqb k' k) eqn:E.
    + apply String.eqb_eq in E. split; [eauto | now left].
    + apply String.eqb_neq in E. fold (dict_keys d). rewrite <- IH.
      split; [intros [H|H]; [contradiction | assumption] | now right].
Qed.

(** Assigning to a key keeps the other keys where they are: a key that is
    present stays in place, a new key goes to the end. *)
Lemma dict_keys_set (k : string) (v : V) (d : pydict V) :
  dict_keys (dict_set k v d)
  = if in_list k (dict_keys d) then dict_keys d else dict_keys d ++ [k].
Proof.
  unfold in_list.
  induction d as [|[k' v'] d IH]; cbn [dict_set dict_keys List.map existsb fst];
    [reflexivity|].
  fold (dict_keys d) in *. rewrite (String.eqb_sym k k').
  destruct (String.eqb k' k) eqn:E; cbn [List.map fst orb]; [reflexivity|].
  fold (dict_keys (dict_set k v d)). rewrite IH.
  destruct (existsb (String.eqb k) (dict_keys d)); reflexivity.
Qed.

Lemma in_list_iff (x : string) (xs : list string) :
  in_list x xs = true <-> In x xs.
Proof.
  unfold in_list. rewrite existsb_exists. split.
  - intros (y & Hy & E). apply String.eqb_eq in E. now subst.
  - intros H. exists x. split; [assumption | apply String.eqb_refl].
Qed.

Lemma dict_set_wf (k : string) (v : V) (d : pydict V) :
  dict_wf d -> dict_wf (dict_set k v d).
Proof.
  unfold dict_wf. intros Hd. rewrite dict_keys_set.
  destruct (in_list k (dict_keys d)) eqn:E; [assumption|].
  apply List.NoDup_app; [assumption | repeat constructor; intros [] |].
  intros x Hx [<-|[]]. apply in_list_iff in Hx. congruence.
Qed.

End PyDict_facts.

(** ** The cache update *)

Lemma find_app {A : Type} (p : A -> bool) (l1 l2 : list A) :
  List.find p (l1 ++ l2)
  = match List.find p l1 with Some x => Some x | None => List.find p l2 end.
Proof.
  induction l1 as [|x l1 IH]; cbn [List.find app]; [reflexivity|].
  destruct (p x); [reflexivity | exact IH].
Qed.

(** Last write wins: after the update, a key holds the last of the nodes
    with that id, and what it held before when there is none. *)
Lemma update_cache_get (nodes : list MemoryNode.t) :
  forall (cache : pydict MemoryNode.t) k,
    dict_get k (update_cache nodes cache)
    = match last_with_id k nodes with
      | Some n => Some n
      | None => dict_get k cache
      end.
Proof.
  unfold update_cache, last_with_id.
  induction nodes as [|n nodes IH]; intros cache k; cbn [fold_left rev];
    [reflexivity|].
  rewrite IH, find_app. cbn [List.find].
  destruct (List.find _ (rev nodes)); [reflexivity|].
  destruct (String.eqb (MemoryNode.id n) k) eqn:E.
  - apply String.eqb_eq in E. subst k. apply dict_get_set_eq.
  - apply String.eqb_neq in E. now apply dict_get_set_ne.
Qed.

Lemma update_cache_wf (nodes : list MemoryNode.t) :
  forall cache, dict_wf cache -> dict_wf (update_cache nodes cache).
Proof.
  unfold update_cache.
  induction nodes as [|n nodes IH]; intros cache Hwf; cbn [fold_left];
    [assumption|].
  apply IH. now apply dict_set_wf.
Qed.

Lemma update_cache_keys (nodes : list MemoryNode.t) :
  forall cache, exists new_keys,
    dict_keys (update_cache nodes cache) = dict_keys cache ++ new_keys.
Proof.
  unfold update_cache.
  induction nodes as [|n nodes IH]; intros cache; cbn [fold_left].
  - exists []. now rewrite app_nil_r.
  - destruct (IH (dict_set (MemoryNode.id n) n cache)) as [ks Hks].
    rewrite Hks, dict_keys_set.
    destruct (in_list _ _); [eauto|].
    exists ([MemoryNode.id n] ++ ks). now rewrite app_assoc.
Qed.

Lemma last_with_id_Some (k : string) (nodes : list MemoryNode.t)
    (n : MemoryNode.t) :
  last_with_id k nodes = Some n -> In n nodes /\ MemoryNode.id n = k.
Proof.
  unfold last_with_id. intros H. apply find_some in H.
  destruct H as [Hin E]. apply in_rev in Hin.
  apply String.eqb_eq in E. split; assumption.
Qed.

Lemma update_cache_keyed (nodes : list MemoryNode.t)
    (cache : pydict MemoryNode.t) :
  keyed_by_id cache -> keyed_by_id (update_cache nodes cache).
Proof.
  intros Hc k n. rewrite update_cache_get.
  destruct (last_with_id k nodes) as [m|] eqn:E.
  - intros [= <-]. exact (proj2 (last_with_id_Some _ _ _ E)).
  - apply Hc.
Qed.

Lemma find_unique_id (l : list MemoryNode.t) (n : MemoryNode.t) :
  List.NoDup (List.map MemoryNode.id l) -> In n l ->
  List.find (fun m => String.eqb (MemoryNode.id m) (MemoryNode.id n)) l
  = Some n.
Proof.
  induction l as [|x l IH]; intros Hnd Hin; [destruct Hin|].
  cbn [List.map] in Hnd. inversion Hnd as [|? ? Hx Hnd']; subst.
  cbn [List.find]. destruct Hin as [->|Hin].
  - now rewrite String.eqb_refl.
  - destruct (String.eqb (MemoryNode.id x) (MemoryNode.id n)) eqn:E.
    + apply String.eqb_eq in E. exfalso. apply Hx. rewrite E.
      now apply in_map.
    + now apply IH.
Qed.

Lemma last_with_id_unique (nodes : list MemoryNode.t) (n : MemoryNode.t) :
  List.NoDup (List.map MemoryNode.id nodes) -> In n nodes ->
  last_with_id (MemoryNode.id n) nodes = Some n.
Proof.
  intros Hnd Hin. unfold last_with_id. apply find_unique_id.
  - rewrite map_rev. now apply NoDup_rev.
  - now apply in_rev in Hin.
Qed.

(** ** The write-back *)

Section Write_back_facts.

Context (airtable : airtable_client) (now_isoformat : nat -> string).

Lemma write_back_accepted (nodes : list MemoryNode.t) :
  forall k,
    Forall (fun call => update airtable (fst call) (snd call) = Ok tt)
           (write_back_calls now_isoformat k nodes) ->
    write_back airtable now_isoformat k nodes
    = (write_back_calls now_isoformat k nodes, Ok tt).
Proof.
  induction nodes as [|n nodes IH]; intros k Hall;
    cbn [write_back write_back_calls] in *; [reflexivity|].
  inversion Hall as [|? ? Hn Hrest]; subst. cbn [fst snd] in Hn.
  rewrite Hn, (IH (S k) Hrest). reflexivity.
Qed.

(** The write-back stops at the first call that raises: the calls made
    are the accepted ones, then the refused one, and they open the list
    of the calls to make. *)
Lemma write_back_refused (nodes : list MemoryNode.t) :
  forall k calls e,
    write_back airtable now_isoformat k nodes = (calls, Raise e) ->
    exists accepted call rest,
      calls = accepted ++ [call]
      /\ write_back_calls now_isoformat k nodes = accepted ++ call :: rest
      /\ Forall (fun c => update airtable (fst c) (snd c) = Ok tt) accepted
      /\ update airtable (fst call) (snd call) = Raise e.
Proof.
  induction nodes as [|n nodes IH]; intros k calls e;
    cbn [write_back write_back_calls]; [discriminate|].
  destruct (update airtable (MemoryNode.id n) _) as [[]|e'] eqn:Eu.
  - destruct (write_back airtable now_isoformat (S k) nodes) as [cs r] eqn:Ew.
    intros [= <- ->].
    destruct (IH _ _ _ Ew) as (acc & call & rest & -> & Hc & Hacc & Hcall).
    eexists (_ :: acc), call, rest. rewrite Hc.
    repeat split; try assumption. constructor; assumption.
  - intros [= <- <-].
    eexists [], _, _. repeat split; [constructor | exact Eu].
Qed.

Lemma write_back_calls_ids (nodes : list MemoryNode.t) :
  forall k, List.map fst (write_back_calls now_isoformat k nodes)
            = List.map MemoryNode.id nodes.
Proof.
  induction nodes as [|n nodes IH]; intros k; cbn; [reflexivity|].
  now rewrite IH.
Qed.

Lemma write_back_calls_fields (nodes : list MemoryNode.t) :
  forall k,
    Forall2 (fun n call =>
               fst call = MemoryNode.id n
               /\ SpectralFrequency (snd call) = MemoryNode.spectral_frequency n
               /\ ResonanceThreads (snd call)
                  = join ", " (MemoryNode.resonance_threads n)
               /\ HarmonizationStatus (snd call)
                  = MemoryNode.harmonization_status n)
            nodes (write_back_calls now_isoformat k nodes).
Proof.
  induction nodes as [|n nodes IH]; intros k; cbn [write_back_calls];
    constructor; [cbn; tauto | apply IH].
Qed.

End Write_back_facts.

(** ** The run *)

Lemma marley_nodes_py_str (clock : nat -> datetime)
    (records : list airtable_record) :
  py_records records ->
  Forall (fun n => py_str (MemoryNode.content n)) (marley_nodes clock records).
Proof.
  intros Hr.
  pose proof (marley_nodes_from_built clock records 0) as HF.
  fold (marley_nodes clock records) in HF.
  assert (Hsub : Forall (fun r => forall c,
                           record_fields r !! "Content"%string = Some c ->
                           py_str c)
                        (List.filter has_content records)).
  { unfold py_records in Hr. rewrite List.Forall_forall in *.
    intros r Hin. apply filter_In in Hin. apply Hr, Hin. }
  clear Hr. induction HF as [|r n rs ns Hb _ IH]; constructor.
  - inversion Hsub; subst. destruct Hb as (_ & Hc & _). eauto.
  - apply IH. now inversion Hsub.
Qed.

Lemma marley_nodes_ids (clock : nat -> datetime)
    (records : list airtable_record) :
  List.map MemoryNode.id (marley_nodes clock records)
  = List.map record_id (List.filter has_content records).
Proof.
  pose proof (marley_nodes_from_built clock records 0) as HF.
  fold (marley_nodes clock records) in HF.
  apply (Forall2_map_eq built_from record_id MemoryNode.id _ _
           (fun r n H => proj1 H) HF).
Qed.

Lemma NoDup_map_filter {A B : Type} (f : A -> B) (p : A -> bool) (l : list A) :
  List.NoDup (List.map f l) -> List.NoDup (List.map f (List.filter p l)).
Proof.
  induction l as [|x l IH]; cbn [List.map List.filter]; intros H;
    [constructor|].
  inversion H as [|? ? Hx Hl]; subst.
  destruct (p x); cbn [List.map]; [|now apply IH].
  constructor; [|now apply IH].
  intros Hin. apply Hx. apply in_map_iff in Hin.
  destruct Hin as (y & <- & Hy). apply in_map. apply filter_In in Hy. tauto.
Qed.

Section Sync_facts.

Context {hash_order : HashOrder}.
Context (airtable : airtable_client).
Context (clock : nat -> datetime) (now_isoformat : nat -> string).
Context (py_sum : list float -> pynum).

Abbreviation run := (sync_memory_bidirectional airtable clock now_isoformat py_sum).

(** A run on a store that answers the fetch with Python strings: the
    nodes are aligned, the cache updated, then the write-back made. *)
Lemma sync_fetched (cache : pydict MemoryNode.t)
    (records : list airtable_record) :
  get_all airtable = Ok records -> py_records records ->
  exists aligned,
    align_memory_nodes (marley_nodes clock records) = Ok aligned
    /\ length aligned = length (List.filter has_content records)
    /\ Permutation (List.map MemoryNode.id aligned)
                   (List.map record_id (List.filter has_content records))
    /\ Forall (fun n => MemoryNode.harmonization_status n = "aligned"%string)
              aligned
    /\ cache_after (run cache) = update_cache aligned cache
    /\ update_calls (run cache)
       = fst (write_back airtable now_isoformat 0 aligned)
    /\ returned (run cache)
       = (do _ <- snd (write_back airtable now_isoformat 0 aligned) ;;
          Ok (summary_of now_isoformat py_sum aligned)).
Proof.
  intros Hg Hr.
  pose proof (marley_nodes_py_str clock records Hr) as Hs.
  destruct (align_memory_nodes_ok _ Hs) as (aligned & _ & E & HF).
  pose proof (sorted_reverse_Permutation MemoryNode.spectral_frequency aligned)
    as HP.
  set (out := sorted_reverse MemoryNode.spectral_frequency aligned) in *.
  assert (Hids : List.map MemoryNode.id aligned
                 = List.map MemoryNode.id (marley_nodes clock records)).
  { apply (Forall2_map_eq _ _ _ _ _
             (fun n n' H => proj1 (proj1 (proj2 H))) HF). }
  exists out. split; [exact E|]. split; [|split; [|split]].
  - rewrite (Permutation_length HP).
    rewrite <- (length_map MemoryNode.id aligned), Hids, marley_nodes_ids.
    apply length_map.
  - rewrite (Permutation_map MemoryNode.id HP), Hids, marley_nodes_ids.
    reflexivity.
  - apply List.Forall_forall. intros n' Hin.
    apply (Permutation_in _ HP) in Hin.
    pose proof (Forall2_Forall_r _
      (fun n' => MemoryNode.harmonization_status n' = "aligned"%string)
      _ _ (fun n n' H => proj1 (proj2 (proj2 (proj2 H)))) HF) as HA.
    rewrite List.Forall_forall in HA. now apply HA.
  - unfold sync_memory_bidirectional. rewrite Hg, E.
    destruct (write_back airtable now_isoformat 0 out) as [calls written].
    repeat split.
Qed.

(** X11. When the store answers the fetch and accepts every update, the
    run returns a summary whose count of synchronized nodes is the number
    of fetched records with a [Content] field, and it makes exactly one
    update call for each of them, under the id of the node, with the
    computed frequency, the threads joined by a comma and a space, and
    the status [aligned]. *)
Theorem X11_sync_success (cache : pydict MemoryNode.t)
    (records : list airtable_record) :
  get_all airtable = Ok records -> py_records records ->
  (forall id fields, update airtable id fields = Ok tt) ->
  exists aligned summary,
    align_memory_nodes (marley_nodes clock records) = Ok aligned
    /\ returned (run cache) = Ok summary
    /\ synchronized_nodes summary
       = len (List.filter has_content records)
    /\ unique_resonance_threads summary
       = len (nodup string_dec
                (flat_map MemoryNode.resonance_threads aligned))
    /\ length (update_calls (run cache))
       = length (List.filter has_content records)
    /\ Forall2 (fun n call =>
                  fst call = MemoryNode.id n
                  /\ SpectralFrequency (snd call)
                     = MemoryNode.spectral_frequency n
                  /\ ResonanceThreads (snd call)
                     = join ", " (MemoryNode.resonance_threads n)
                  /\ HarmonizationStatus (snd call) = "aligned"%string)
               aligned (update_calls (run cache)).
Proof.
  intros Hg Hr Hu.
  destruct (sync_fetched cache records Hg Hr)
    as (aligned & E & Hlen & _ & Hst & _ & Hcalls & Hret).
  rewrite (write_back_accepted airtable now_isoformat aligned 0) in Hcalls, Hret
    by (apply List.Forall_forall; intros call _; apply Hu).
  cbn [fst snd bind] in Hcalls, Hret.
  exists aligned, (summary_of now_isoformat py_sum aligned).
  split; [exact E|]. split; [exact Hret|].
  cbn [synchronized_nodes unique_resonance_threads summary_of].
  split; [unfold len; now rewrite Hlen|]. split; [reflexivity|].
  rewrite Hcalls. split.
  - rewrite <- Hlen, <- (length_map fst), write_back_calls_ids.
    apply length_map.
  - pose proof (write_back_calls_fields now_isoformat aligned 0) as HF.
    clear -HF Hst. induction HF as [|n c ns cs H _ IH]; constructor.
    + inversion Hst as [|? ? Hn' _]; subst.
      destruct H as (Hc1 & Hc2 & Hc3 & Hc4).
      repeat split; congruence.
    + apply IH. now inversion Hst.
Qed.

(** X12. After a run that fetched its records, last write wins in the
    cache: a key holds the last aligned node with that id, and what it
    held before the run when no aligned node has that id; this whether
    the write-back succeeds or not. When the ids of the records are
    distinct, every aligned node is found under its id. *)
Theorem X12_cache_last_write_wins (cache : pydict MemoryNode.t)
    (records : list airtable_record) :
  get_all airtable = Ok records -> py_records records ->
  exists aligned,
    align_memory_nodes (marley_nodes clock records) = Ok aligned
    /\ (forall k,
          dict_get k (cache_after (run cache))
          = match last_with_id k aligned with
            | Some n => Some n
            | None => dict_get k cache
            end)
    /\ (List.NoDup (List.map record_id records) ->
        forall n, In n aligned ->
          dict_get (MemoryNode.id n) (cache_after (run cache)) = Some n).
Proof.
  intros Hg Hr.
  destruct (sync_fetched cache records Hg Hr)
    as (aligned & E & _ & Hids & _ & Hcache & _).
  exists aligned. split; [exact E|]. rewrite Hcache. split.
  - intros k. apply update_cache_get.
  - intros Hnd n Hin. rewrite update_cache_get.
    rewrite last_with_id_unique; [reflexivity | | assumption].
    apply (Permutation_NoDup (Permutation_sym Hids)).
    now apply NoDup_map_filter.
Qed.

(** X13. Whatever the store does, a run keeps the cache a dictionary in
    which every node is stored under its own id, and it leaves the keys
    that were there in their places, new keys coming after them. *)
Theorem X13_cache_invariant (cache : pydict MemoryNode.t) :
  dict_wf cache -> keyed_by_id cache ->
  dict_wf (cache_after (run cache))
  /\ keyed_by_id (cache_after (run cache))
  /\ exists new_keys,
       dict_keys (cache_after (run cache)) = dict_keys cache ++ new_keys.
Proof.
  intros Hwf Hk. unfold sync_memory_bidirectional.
  destruct (get_all airtable) as [records|e].
  2:{ cbn. repeat split; try assumption. exists []. now rewrite app_nil_r. }
  destruct (align_memory_nodes _) as [aligned|e].
  2:{ cbn. repeat split; try assumption. exists []. now rewrite app_nil_r. }
  destruct (write_back _ _ _ _) as [calls written]. cbn [cache_after].
  split; [now apply update_cache_wf|].
  split; [now apply update_cache_keyed | apply update_cache_keys].
Qed.

(** X14. The cache is updated before the write-back: when some update
    call raises, the run raises that exception, the update calls made
    are the accepted ones followed by the refused one, no later call is
    made, and the cache nevertheless holds the aligned nodes. *)
Theorem X14_refused_update (cache : pydict MemoryNode.t)
    (records : list airtable_record) (aligned : list MemoryNode.t) :
  get_all airtable = Ok records ->
  align_memory_nodes (marley_nodes clock records) = Ok aligned ->
  Exists (fun call => update airtable (fst call) (snd call) <> Ok tt)
         (write_back_calls now_isoformat 0 aligned) ->
  exists e accepted call rest,
    returned (run cache) = Raise e
    /\ update_calls (run cache) = accepted ++ [call]
    /\ write_back_calls now_isoformat 0 aligned = accepted ++ call :: rest
    /\ Forall (fun c => update airtable (fst c) (snd c) = Ok tt) accepted
    /\ update airtable (fst call) (snd call) = Raise e
    /\ cache_after (run cache) = update_cache aligned cache.
Proof.
  intros Hg E Hex. unfold sync_memory_bidirectional. rewrite Hg, E.
  destruct (write_back airtable now_isoformat 0 aligned) as [calls [[]|e]] eqn:Ew.
  - exfalso.
    assert (Hall : forall nodes k cs,
               write_back airtable now_isoformat k nodes = (cs, Ok tt) ->
               Forall (fun c => update airtable (fst c) (snd c) = Ok tt)
                      (write_back_calls now_isoformat k nodes)).
    { clear. induction nodes as [|n nodes IH]; intros k cs;
        cbn [write_back write_back_calls]; [constructor|].
      destruct (update airtable (MemoryNode.id n) _) as [[]|e'] eqn:Eu;
        [|discriminate].
      destruct (write_back airtable now_isoformat (S k) nodes) as [cs' r] eqn:Ew.
      intros [= <- ->]. constructor; [exact Eu | now apply (IH _ _ Ew)]. }
    apply Hall in Ew. apply List.Exists_exists in Hex.
    destruct Hex as (call & Hin & Hne). rewrite List.Forall_forall in Ew.
    now apply Hne, Ew.
  - destruct (write_back_refused _ _ _ _ _ _ Ew)
      as (acc & call & rest & -> & Hc & Hacc & Hcall).
    exists e, acc, call, rest. cbn. repeat split; assumption.
Qed.

End Sync_facts.

(** * The resonance map *)

Lemma dict_set_new {V : Type} (k : string) (v : V) (d : pydict V) :
  ~ In k (dict_keys d) -> dict_set k v d = d ++ [(k, v)].
Proof.
  induction d as [|[k' v'] d IH]; cbn [dict_set dict_keys List.map fst app];
    intros Hk; [reflexivity|].
  destruct (String.eqb k' k) eqn:E.
  - apply String.eqb_eq in E. exfalso. apply Hk. now left.
  - rewrite IH; [reflexivity|]. intros Hin. apply Hk. now right.
Qed.

Lemma dict_get_In {V : Type} (k : string) (v : V) (d : pydict V) :
  dict_wf d -> (dict_get k d = Some v <-> In (k, v) d).
Proof.
  unfold dict_wf. induction d as [|[k' v'] d IH];
    cbn [dict_get dict_keys List.map fst]; intros Hwf.
  - split; [discriminate | intros []].
  - inversion Hwf as [|? ? Hk' Hwf']; subst.
    destruct (String.eqb k' k) eqn:E.
    + apply String.eqb_eq in E. subst k'. split.
      * intros [= ->]. now left.
      * intros [[= ->]|Hin]; [reflexivity|].
        exfalso. apply Hk'. apply (in_map fst) in Hin. exact Hin.
    + apply String.eqb_neq in E. rewrite (IH Hwf'). split.
      * now right.
      * intros [[= -> ->]|Hin]; [contradiction | assumption].
Qed.

(** On a dictionary, building the map key by key is mapping over the
    items. *)
Lemma fold_dict_set_map {V W : Type} (g : string * V -> W)
    (items : list (string * V)) :
  forall acc : pydict W,
    List.NoDup (dict_keys acc ++ List.map fst items) ->
    fold_left (fun m item => dict_set (fst item) (g item) m) items acc
    = acc ++ List.map (fun item => (fst item, g item)) items.
Proof.
  induction items as [|item items IH]; intros acc Hnd;
    cbn [fold_left List.map].
  - now rewrite app_nil_r.
  - cbn [List.map] in Hnd.
    rewrite dict_set_new.
    + rewrite IH.
      * now rewrite <- app_assoc.
      * unfold dict_keys in *. rewrite map_app, <- app_assoc. exact Hnd.
    + apply NoDup_remove_2 in Hnd. intros Hin. apply Hnd.
      apply in_or_app. now left.
Qed.

Lemma get_memory_resonance_map_items (cache : pydict MemoryNode.t) :
  dict_wf cache ->
  get_memory_resonance_map cache
  = List.map (fun item => (fst item, entry_of cache (fst item) (snd item)))
             cache.
Proof.
  intros Hwf. unfold get_memory_resonance_map.
  now rewrite (fold_dict_set_map
                 (fun item => entry_of cache (fst item) (snd item)) cache []).
Qed.

Lemma shares_thread_iff (n m : MemoryNode.t) :
  shares_thread n m = true
  <-> exists t, In t (MemoryNode.resonance_threads n)
                /\ In t (MemoryNode.resonance_threads m).
Proof.
  unfold shares_thread. rewrite existsb_exists.
  split; intros (t & Ht & H); exists t; split; try assumption;
    now apply in_list_iff.
Qed.

Lemma shares_thread_sym (n m : MemoryNode.t) :
  shares_thread n m = shares_thread m n.
Proof.
  apply eq_true_iff_eq. rewrite !shares_thread_iff.
  split; intros (t & H1 & H2); eauto.
Qed.

Lemma connected_to_iff (cache : pydict MemoryNode.t) (i j : string)
    (ni : MemoryNode.t) :
  In j (connected_to cache i ni)
  <-> exists nj, In (j, nj) cache /\ shares_thread ni nj = true /\ j <> i.
Proof.
  unfold connected_to. rewrite in_map_iff. split.
  - intros ([j' nj] & <- & Hin). apply filter_In in Hin.
    destruct Hin as [Hin Hc]. cbn [fst snd] in *.
    apply andb_true_iff in Hc. destruct Hc as [Hs Hne].
    apply negb_true_iff, String.eqb_neq in Hne. eauto.
  - intros (nj & Hin & Hs & Hne). exists (j, nj). split; [reflexivity|].
    apply filter_In. split; [assumption|]. cbn [fst snd].
    rewrite Hs. apply String.eqb_neq in Hne. now rewrite Hne.
Qed.

Lemma resonance_map_get (cache : pydict MemoryNode.t) (k : string)
    (e : resonance_entry) :
  dict_wf cache ->
  dict_get k (get_memory_resonance_map cache) = Some e ->
  exists n, In (k, n) cache /\ e = entry_of cache k n.
Proof.
  intros Hwf. rewrite (get_memory_resonance_map_items cache Hwf).
  generalize (entry_of cache). intros f.
  clear Hwf. induction cache as [|[k' n'] cache IH];
    cbn [List.map dict_get fst snd]; [discriminate|].
  destruct (String.eqb k' k) eqn:E.
  - apply String.eqb_eq in E. subst k'. intros [= <-]. exists n'.
    split; [now left | reflexivity].
  - intros H. destruct (IH H) as (n & Hin & ->). exists n.
    split; [now right | reflexivity].
Qed.


(** X16. In the resonance map of a cache, connection is symmetric and
    irreflexive: a node [j] is listed as connected to [i] exactly when
    [i] is listed as connected to [j], no node is connected to itself,
    and a node without threads is connected to none. *)
Theorem X16_connection_symmetric (cache : pydict MemoryNode.t)
    (i j : string) (ei ej : resonance_entry) :
  dict_wf cache ->
  dict_get i (get_memory_resonance_map cache) = Some ei ->
  dict_get j (get_memory_resonance_map cache) = Some ej ->
  (In j (connected_nodes ei) <-> In i (connected_nodes ej))
  /\ ~ In i (connected_nodes ei)
  /\ (entry_resonance_threads ei = [] -> connected_nodes ei = []).
Proof.
  intros Hwf Hi Hj.
  destruct (resonance_map_get cache i ei Hwf Hi) as (ni & Hini & ->).
  destruct (resonance_map_get cache j ej Hwf Hj) as (nj & Hinj & ->).
  cbn [connected_nodes entry_resonance_threads entry_of].
  assert (Huniq : forall k n n', In (k, n) cache -> In (k, n') cache -> n = n').
  { intros k n n' H1 H2. apply (dict_get_In k n cache Hwf) in H1.
    apply (dict_get_In k n' cache Hwf) in H2. congruence. }
  split; [|split].
  - rewrite !connected_to_iff. split.
    + intros (nj' & Hin & Hs & Hne).
      rewrite (Huniq _ _ _ Hin Hinj) in Hs.
      exists ni. rewrite shares_thread_sym. repeat split; try assumption.
      congruence.
    + intros (ni' & Hin & Hs & Hne).
      rewrite (Huniq _ _ _ Hin Hini) in Hs.
      exists nj. rewrite shares_thread_sym. repeat split; try assumption.
      congruence.
  - rewrite connected_to_iff. intros (n & _ & _ & Hne). now apply Hne.
  - intros Hnil. unfold connected_to, shares_thread. rewrite Hnil.
    cbn [existsb andb]. rewrite filter_none; [reflexivity | reflexivity].
Qed.

(** * Harmonization and the message endpoint *)

Section Harmonize_more.

Context {hash_order : HashOrder}.
Context (claude : string -> result message) (now_isoformat : string).


(** X18. When the collaborator replies and the first block of the reply
    is a Python string, the harmonization succeeds: the payload holds
    that text and its analysis, beside the input content and format. *)
Theorem X18_harmonize_success (content target_format : string)
    (block : content_block) (blocks : list content_block) :
  claude (harmonization_prompt content target_format)
  = Ok {| message_content := block :: blocks |} ->
  py_str (text block) ->
  exists analysis,
    analyze_spectral_pattern (text block) = Ok analysis
    /\ harmonize_markdown_content claude now_isoformat content target_format
       = Ok (Harmonized content (text block) target_format analysis
                        now_isoformat).
Proof.
  intros Hc Hs. eexists.
  split; [apply analyze_spectral_pattern_ok, Hs|].
  unfold harmonize_markdown_content. rewrite Hc.
  cbn [bind first_item message_content].
  rewrite (analyze_spectral_pattern_ok _ Hs). reflexivity.
Qed.

(** X19. A reply without any content block is reported like a failure of
    the collaborator: the index error raised by reading the first block
    is caught, and the payload holds its message and the input content. *)
Theorem X19_harmonize_empty_reply (content target_format : string) :
  claude (harmonization_prompt content target_format)
  = Ok {| message_content := [] |} ->
  harmonize_markdown_content claude now_isoformat content target_format
  = Ok (Failed "list index out of range" content).
Proof.
  intros Hc. unfold harmonize_markdown_content. rewrite Hc. reflexivity.
Qed.

End Harmonize_more.

Section WebSocket_facts.

Context {State SyncData HarmonizationData : Type}.
Context (sync : State -> State * result SyncData).
Context (harmonize : string -> string -> result HarmonizationData).
Context (json_loads : string -> result (gmap string string)).

Abbreviation session := (websocket_memory_sync sync harmonize json_loads).
Abbreviation turn := (handle_text sync harmonize json_loads).

Lemma session_app_ignored (pre : list string) (d : string) :
  (forall st, turn d st = (st, Ok None)) ->
  forall rest st, session (pre ++ d :: rest) st = session (pre ++ rest) st.
Proof.
  intros Hd rest. induction pre as [|x pre IH]; intros st;
    cbn [app websocket_memory_sync].
  - now rewrite Hd.
  - destruct (turn x st) as [st' [[reply|]|e]]; [|apply IH|reflexivity].
    now rewrite IH.
Qed.

Lemma session_app_raised (pre : list string) (d : string) :
  (forall st, exists e, turn d st = (st, Raise e)) ->
  forall rest st, session (pre ++ d :: rest) st = session pre st.
Proof.
  intros Hd rest. induction pre as [|x pre IH]; intros st;
    cbn [app websocket_memory_sync].
  - destruct (Hd st) as [e ->]. reflexivity.
  - destruct (turn x st) as [st' [[reply|]|e]]; [|apply IH|reflexivity].
    now rewrite IH.
Qed.

(** X20. A message whose type is neither [sync_memory] nor
    [harmonize_content] is passed over in silence: wherever it stands
    among the received messages, the replies sent and the final state are
    those of the session without it. *)
Theorem X20_unknown_type_ignored (pre rest : list string) (d type : string)
    (message : gmap string string) (st : State) :
  json_loads d = Ok message -> message !! "type"%string = Some type ->
  type <> "sync_memory"%string -> type <> "harmonize_content"%string ->
  session (pre ++ d :: rest) st = session (pre ++ rest) st.
Proof.
  intros Hj Ht H1 H2. apply session_app_ignored. intros st'.
  unfold handle_text, message_item. rewrite Hj, Ht.
  apply String.eqb_neq in H1, H2. now rewrite H1, H2.
Qed.

(** X21. A text that does not parse, or a message without a [type],
    ends the session: the messages received after it are never handled,
    and neither it nor they are answered. *)
Theorem X21_untyped_message_ends_session (pre rest : list string) (d : string)
    (st : State) :
  (forall message, json_loads d = Ok message ->
                   message !! "type"%string = None) ->
  session (pre ++ d :: rest) st = session pre st.
Proof.
  intros Hd. apply session_app_raised. intros st'.
  unfold handle_text, message_item.
  destruct (json_loads d) as [message|e]; [|eauto].
  rewrite (Hd message eq_refl). eauto.
Qed.


(** X23. A [harmonize_content] message without a [target_format] is
    handled as the same message with the target format [obsidian]. *)
Theorem X23_default_target_format (d d' : string)
    (message : gmap string string) (st : State) :
  json_loads d = Ok message ->
  message !! "target_format"%string = None ->
  json_loads d' = Ok (<[ "target_format"%string := "obsidian"%string ]> message) ->
  turn d st = turn d' st.
Proof.
  intros Hj Hn Hj'. unfold handle_text, message_item. rewrite Hj, Hj'.
  rewrite !lookup_insert_ne by discriminate.
  rewrite lookup_insert_eq, Hn. reflexivity.
Qed.

End WebSocket_facts.

(** * The further theorems at concrete inputs *)

Open Scope string_scope.

Lemma py_str_link_content : py_str link_content.
Proof. unfold py_str. simpl. lia. Qed.

Lemma py_records_three : py_records three_records.
Proof.
  unfold py_records, three_records.
  repeat constructor; cbn [record_fields]; intros c H;
    vm_compute in H; try discriminate; injection H as <-;
    unfold py_str; simpl; lia.
Qed.

Lemma X2_witness :
  py_str example_content
  /\ exists a,
       @analyze_spectral_pattern last_seen_order example_content = Ok a
       /\ forall t, In t (resonance_threads a) ->
            t <> EmptyString /\ free_of "]" t = true
            /\ free_of newline t = true.
Proof.
  split; [exact py_str_example|].
  apply (@X2_threads_shape last_seen_order example_content).
  unfold py_str. simpl. lia.
Defined.

Lemma X3_witness :
  py_str "plain # text](x)" /\ free_of "[" "plain # text](x)" = true
  /\ exists a,
       @analyze_spectral_pattern last_seen_order "plain # text](x)" = Ok a
       /\ resonance_threads a = [].
Proof.
  split; [unfold py_str; simpl; lia|]. split; [reflexivity|].
  apply (@X3_no_bracket_no_thread last_seen_order "plain # text](x)").
  - unfold py_str. simpl. lia.
  - reflexivity.
Defined.

Lemma X4_witness :
  py_str example_content
  /\ In ("See " +:+ "[[" +:+ "Concept" +:+ "]]" +:+ " and [label](url)")
        (split newline example_content)
  /\ exists a,
       @analyze_spectral_pattern last_seen_order example_content = Ok a
       /\ In "Concept" (resonance_threads a).
Proof.
  split; [exact py_str_example|].
  split; [vm_compute; right; left; reflexivity|].
  apply (@X4_wikilink_extracted last_seen_order example_content
           "See " "Concept" " and [label](url)").
  - unfold py_str. simpl. lia.
  - vm_compute. right. left. reflexivity.
  - reflexivity.
  - discriminate.
  - reflexivity.
Defined.

Lemma X5_witness :
  py_str link_content
  /\ In ("see " +:+ "[" +:+ "label" +:+ "](" +:+ "url" +:+ ")" +:+ " here")
        (split newline link_content)
  /\ exists a,
       @analyze_spectral_pattern last_seen_order link_content = Ok a
       /\ In "label" (resonance_threads a).
Proof.
  split; [exact py_str_link_content|].
  split; [vm_compute; right; left; reflexivity|].
  apply (@X5_inline_link_extracted last_seen_order link_content
           "see " "label" "url" " here").
  - unfold py_str. simpl. lia.
  - vm_compute. right. left. reflexivity.
  - reflexivity.
  - discriminate.
  - reflexivity.
  - discriminate.
  - reflexivity.
Defined.

Lemma X6_witness :
  py_str "plain text"
  /\ @analyze_spectral_pattern last_seen_order "plain text"
     = Ok {| spectral_frequency := zero;
             resonance_threads := [];
             structural_depth := 0;
             connection_density := PyFloat zero |}.
Proof.
  split; [unfold py_str; simpl; lia|].
  apply (@X6_plain_text_scores_zero last_seen_order "plain text").
  - unfold py_str. simpl. lia.
  - reflexivity.
  - reflexivity.
  - reflexivity.
Defined.

Lemma X7_witness :
  py_str example_content
  /\ exists a,
       @analyze_spectral_pattern last_seen_order example_content = Ok a
       /\ (0 <= structural_depth a)%Z
       /\ (structural_depth a + count_lines is_tag example_content
           <= spec_line_count example_content)%Z
       /\ (0 <= count_lines has_link example_content
           <= spec_line_count example_content)%Z
       /\ (2 * (structural_depth a * 2 + count_lines has_link example_content)
           + count_lines is_tag example_content
           <= 6 * spec_line_count example_content)%Z.
Proof.
  split; [exact py_str_example|].
  apply (@X7_counts_bounded last_seen_order example_content).
  unfold py_str. simpl. lia.
Defined.

Lemma X8_witness :
  @align_memory_nodes last_seen_order [plain_node; example_node]
  = Ok two_nodes_aligned
  /\ @align_memory_nodes last_seen_order two_nodes_aligned
     = Ok two_nodes_aligned.
Proof.
  split; [vm_compute; reflexivity|].
  apply (@X8_align_idempotent last_seen_order [plain_node; example_node]).
  vm_compute. reflexivity.
Defined.

Lemma X9_witness :
  Forall2 same_copied_fields [plain_node] [plain_node_stale]
  /\ @align_memory_nodes last_seen_order [plain_node_stale]
     = @align_memory_nodes last_seen_order [plain_node].
Proof.
  assert (H : Forall2 same_copied_fields [plain_node] [plain_node_stale])
    by (repeat constructor; reflexivity).
  split; [exact H|].
  apply (@X9_align_ignores_derived_fields last_seen_order
           [plain_node] [plain_node_stale]).
  repeat constructor; reflexivity.
Defined.

Lemma X10_witness :
  @align_memory_nodes last_seen_order [plain_node; example_node]
  = Ok two_nodes_aligned
  /\ forall (i j : nat) a b,
       (i < j)%nat ->
       two_nodes_aligned !! i = Some a -> two_nodes_aligned !! j = Some b ->
       leb (MemoryNode.spectral_frequency b)
           (MemoryNode.spectral_frequency a) = true.
Proof.
  split; [vm_compute; reflexivity|].
  apply (@X10_align_sorted_all_pairs last_seen_order
           [plain_node; example_node]).
  vm_compute. reflexivity.
Defined.

Abbreviation example_run store :=
  (@sync_memory_bidirectional last_seen_order store example_clock
     example_isoformat example_sum).

Lemma X11_witness :
  get_all accepting_store = Ok three_records
  /\ py_records three_records
  /\ (forall id fields, update accepting_store id fields = Ok tt)
  /\ exists aligned summary,
       @align_memory_nodes last_seen_order
         (marley_nodes example_clock three_records) = Ok aligned
       /\ returned (example_run accepting_store old_cache) = Ok summary
       /\ synchronized_nodes summary
          = len (List.filter has_content three_records)
       /\ unique_resonance_threads summary
          = len (nodup string_dec
                   (flat_map MemoryNode.resonance_threads aligned))
       /\ length (update_calls (example_run accepting_store old_cache))
          = length (List.filter has_content three_records)
       /\ Forall2 (fun n call =>
                     fst call = MemoryNode.id n
                     /\ SpectralFrequency (snd call)
                        = MemoryNode.spectral_frequency n
                     /\ ResonanceThreads (snd call)
                        = join ", " (MemoryNode.resonance_threads n)
                     /\ HarmonizationStatus (snd call) = "aligned")
                  aligned
                  (update_calls (example_run accepting_store old_cache)).
Proof.
  split; [reflexivity|]. split; [exact py_records_three|].
  split; [reflexivity|].
  apply (@X11_sync_success last_seen_order accepting_store example_clock
           example_isoformat example_sum old_cache three_records).
  - reflexivity.
  - exact py_records_three.
  - reflexivity.
Defined.

Lemma X12_witness :
  get_all accepting_store = Ok three_records
  /\ py_records three_records
  /\ exists aligned,
       @align_memory_nodes last_seen_order
         (marley_nodes example_clock three_records) = Ok aligned
       /\ (forall k,
             dict_get k (cache_after (example_run accepting_store old_cache))
             = match last_with_id k aligned with
               | Some n => Some n
               | None => dict_get k old_cache
               end)
       /\ (List.NoDup (List.map record_id three_records) ->
           forall n, In n aligned ->
             dict_get (MemoryNode.id n)
                      (cache_after (example_run accepting_store old_cache))
             = Some n).
Proof.
  split; [reflexivity|]. split; [exact py_records_three|].
  apply (@X12_cache_last_write_wins last_seen_order accepting_store
           example_clock example_isoformat example_sum old_cache
           three_records).
  - reflexivity.
  - exact py_records_three.
Defined.

Lemma old_cache_wf : dict_wf old_cache.
Proof.
  unfold dict_wf. cbn. repeat constructor; cbn; intuition discriminate.
Qed.

Lemma old_cache_keyed : keyed_by_id old_cache.
Proof.
  intros k n. unfold old_cache. cbn [dict_get].
  destruct (String.eqb "rec0" k) eqn:E0.
  - apply String.eqb_eq in E0. intros [= <-]. now subst.
  - destruct (String.eqb "rec1" k) eqn:E1; [|discriminate].
    apply String.eqb_eq in E1. intros [= <-]. now subst.
Qed.

Lemma X13_witness :
  dict_wf old_cache /\ keyed_by_id old_cache
  /\ dict_wf (cache_after (example_run accepting_store old_cache))
  /\ keyed_by_id (cache_after (example_run accepting_store old_cache))
  /\ exists new_keys,
       dict_keys (cache_after (example_run accepting_store old_cache))
       = (dict_keys old_cache ++ new_keys)%list.
Proof.
  split; [exact old_cache_wf|]. split; [exact old_cache_keyed|].
  apply (@X13_cache_invariant last_seen_order accepting_store example_clock
           example_isoformat example_sum old_cache).
  - unfold dict_wf. cbn. repeat constructor; cbn; intuition discriminate.
  - exact old_cache_keyed.
Defined.

Lemma X14_witness :
  get_all refusing_store = Ok three_records
  /\ @align_memory_nodes last_seen_order
       (marley_nodes example_clock three_records) = Ok three_aligned
  /\ exists e accepted call rest,
       returned (example_run refusing_store old_cache) = Raise e
       /\ update_calls (example_run refusing_store old_cache)
          = (accepted ++ [call])%list
       /\ write_back_calls example_isoformat 0 three_aligned
          = (accepted ++ call :: rest)%list
       /\ Forall (fun c => update refusing_store (fst c) (snd c) = Ok tt)
                 accepted
       /\ update refusing_store (fst call) (snd call) = Raise e
       /\ cache_after (example_run refusing_store old_cache)
          = update_cache three_aligned old_cache.
Proof.
  split; [reflexivity|]. split; [vm_compute; reflexivity|].
  apply (@X14_refused_update last_seen_order refusing_store example_clock
           example_isoformat example_sum old_cache three_records
           three_aligned).
  - reflexivity.
  - vm_compute. reflexivity.
  - apply Exists_cons_hd. discriminate.
Defined.

Lemma linked_cache_wf : dict_wf linked_cache.
Proof.
  unfold dict_wf. cbn. repeat constructor; cbn; intuition discriminate.
Qed.


Lemma X16_witness :
  let ea := {| entry_spectral_frequency := zero;
               entry_resonance_threads := ["x"; "y"];
               connected_nodes := ["c"] |} in
  let ec := {| entry_spectral_frequency := zero;
               entry_resonance_threads := ["y"];
               connected_nodes := ["a"] |} in
  dict_wf linked_cache
  /\ dict_get "a" (get_memory_resonance_map linked_cache) = Some ea
  /\ dict_get "c" (get_memory_resonance_map linked_cache) = Some ec
  /\ (In "c" (connected_nodes ea) <-> In "a" (connected_nodes ec))
  /\ ~ In "a" (connected_nodes ea)
  /\ (entry_resonance_threads ea = [] -> connected_nodes ea = []).
Proof.
  intros ea ec. split; [exact linked_cache_wf|].
  split; [reflexivity|]. split; [reflexivity|].
  apply (X16_connection_symmetric linked_cache "a" "c" ea ec).
  - unfold dict_wf. cbn. repeat constructor; cbn; intuition discriminate.
  - reflexivity.
  - reflexivity.
Defined.

Lemma X18_witness :
  echo_claude (harmonization_prompt "# Title" "obsidian")
  = Ok {| message_content := [ {| text := "# Title [[Note]]" |} ] |}
  /\ py_str "# Title [[Note]]"
  /\ exists analysis,
       @analyze_spectral_pattern last_seen_order "# Title [[Note]]"
       = Ok analysis
       /\ @harmonize_markdown_content last_seen_order echo_claude
            "2024-01-01T00:00:00" "# Title" "obsidian"
          = Ok (Harmonized "# Title" "# Title [[Note]]" "obsidian" analysis
                           "2024-01-01T00:00:00").
Proof.
  split; [reflexivity|]. split; [unfold py_str; simpl; lia|].
  apply (@X18_harmonize_success last_seen_order echo_claude
           "2024-01-01T00:00:00" "# Title" "obsidian"
           {| text := "# Title [[Note]]" |} []).
  - reflexivity.
  - unfold py_str. simpl. lia.
Defined.

Lemma X19_witness :
  mute_claude (harmonization_prompt "# Title" "obsidian")
  = Ok {| message_content := [] |}
  /\ @harmonize_markdown_content last_seen_order mute_claude
       "2024-01-01T00:00:00" "# Title" "obsidian"
     = Ok (Failed "list index out of range" "# Title").
Proof.
  split; [reflexivity|].
  apply (@X19_harmonize_empty_reply last_seen_order mute_claude
           "2024-01-01T00:00:00" "# Title" "obsidian").
  reflexivity.
Defined.

Abbreviation example_session :=
  (websocket_memory_sync
     (@bridge_sync last_seen_order accepting_store example_clock
        example_isoformat example_sum)
     (@harmonize_markdown_content last_seen_order echo_claude
        "2024-01-01T00:00:00")
     example_json_loads).

Abbreviation example_turn :=
  (handle_text
     (@bridge_sync last_seen_order accepting_store example_clock
        example_isoformat example_sum)
     (@harmonize_markdown_content last_seen_order echo_claude
        "2024-01-01T00:00:00")
     example_json_loads).

Lemma X20_witness :
  example_json_loads ping_text = Ok {[ "type" := "ping" ]}
  /\ ({[ "type" := "ping" ]} : gmap string string) !! "type" = Some "ping"
  /\ "ping" <> "sync_memory" /\ "ping" <> "harmonize_content"
  /\ example_session ([sync_text] ++ ping_text :: [harmonize_text])%list old_cache
     = example_session ([sync_text] ++ [harmonize_text])%list old_cache.
Proof.
  split; [reflexivity|]. split; [reflexivity|].
  split; [discriminate|]. split; [discriminate|].
  apply (X20_unknown_type_ignored _ _ example_json_loads [sync_text]
           [harmonize_text] ping_text "ping" {[ "type" := "ping" ]} old_cache).
  - reflexivity.
  - reflexivity.
  - discriminate.
  - discriminate.
Defined.

Lemma X21_witness :
  (forall message, example_json_loads untyped_text = Ok message ->
                   message !! "type" = None)
  /\ example_session ([harmonize_text] ++ untyped_text :: [sync_text])%list
                     old_cache
     = example_session [harmonize_text] old_cache.
Proof.
  assert (H : forall message, example_json_loads untyped_text = Ok message ->
                              message !! "type" = None).
  { intros message Hm. vm_compute in Hm. injection Hm as <-. reflexivity. }
  split; [exact H|].
  apply (X21_untyped_message_ends_session _ _ example_json_loads
           [harmonize_text] [sync_text] untyped_text old_cache).
  intros message Hm. vm_compute in Hm. injection Hm as <-. reflexivity.
Defined.


Lemma X23_witness :
  example_json_loads harmonize_text = Ok harmonize_message
  /\ harmonize_message !! "target_format" = None
  /\ example_json_loads harmonize_obsidian_text
     = Ok (<[ "target_format" := "obsidian" ]> harmonize_message)
  /\ example_turn harmonize_text old_cache
     = example_turn harmonize_obsidian_text old_cache.
Proof.
  split; [reflexivity|]. split; [reflexivity|]. split; [reflexivity|].
  apply (X23_default_target_format _ _ example_json_loads harmonize_text
           harmonize_obsidian_text harmonize_message old_cache).
  - reflexivity.
  - reflexivity.
  - reflexivity.
Defined.

Close Scope string_scope.
